(** * ratesync: Apple Music -> Plex rating synchronisation

    A shallow embedding of the three source modules

      - [apple-music-client.ts]  (the Local Rating Reader),
      - [plex-client.ts]         (the Remote Library Client),
      - [index.ts]               (the sync engine, function [run]),

    followed by the properties of the specification that are settled on it.

    Conventions of the embedding.

    - A JavaScript [number] that the program handles is a finite IEEE double;
      every such value is a rational, and the program only compares ratings
      ([>], [===]) and divides a parsed integer by ten, so numbers are
      modelled by [Q] with [Qeq_bool]/[Qlt] for the comparisons.  [NaN] is
      modelled where the source tests for it ([parseInt] returning [None]);
      infinities (a digit string of several hundred characters) are outside
      the model.  An integer read by [parseInt] is the number the program
      holds when it is a safe integer ([isSafeInteger]); beyond that the
      program's double is a rounding of it, so what is stated about the
      value of a parsed number is stated for safe integers.
    - Every effect is an [Event] appended to a trace; the outside world (the
      HTTP server, the AppleScript bridge, the clock) is an oracle that may
      depend on the trace so far.
    - A thrown exception (or rejected promise that is awaited) is the [Err]
      result of the monad [M].  A promise that is created and not awaited
      is recorded as an event; how it settles is not part of the control
      flow that created it.
    - TypeBox, pino, url-template and run-applescript are libraries; what
      the program uses of them is modelled in [TypeBox], [Pino], [Plex.expand]
      and the bridge oracle. *)

From Stdlib Require Import List String Ascii Bool ZArith QArith Qround.
From Stdlib Require Import DecimalString Lia Lqa.
Import ListNotations.
Open Scope string_scope.

Set Warnings "-register-all".

(* ================================================================== *)
(** * JavaScript primitives used by the program *)

Module JS.

(** ** Strings: [String.prototype.trim] and [parseInt(s, 10)] *)

(** White space and line terminators in the ASCII range (TAB, LF, VT, FF,
    CR, SP).  The non-ASCII white space of ECMAScript is not representable
    byte-wise and is left out. *)
Definition isWhiteSpace (c : ascii) : bool :=
  let n := nat_of_ascii c in
  ((9 <=? n) && (n <=? 13))%nat || (n =? 32)%nat.

Fixpoint trimStart (s : string) : string :=
  match s with
  | String c s' => if isWhiteSpace c then trimStart s' else s
  | EmptyString => EmptyString
  end.

Fixpoint rev_append (s acc : string) : string :=
  match s with
  | EmptyString => acc
  | String c s' => rev_append s' (String c acc)
  end.

Definition reverse (s : string) : string := rev_append s EmptyString.

Definition trim (s : string) : string :=
  reverse (trimStart (reverse (trimStart s))).

Definition digitValue (c : ascii) : option Z :=
  let n := nat_of_ascii c in
  if ((48 <=? n) && (n <=? 57))%nat then Some (Z.of_nat n - 48)%Z else None.

(** The longest prefix of decimal digits, read most significant first;
    [None] when the prefix is empty. *)
Fixpoint parseDigits (acc : option Z) (s : string) : option Z :=
  match s with
  | EmptyString => acc
  | String c s' =>
      match digitValue c with
      | Some d =>
          parseDigits
            (Some (match acc with Some a => 10 * a + d | None => d end)%Z) s'
      | None => acc
      end
  end.

(** [parseInt(s, 10)]: skip leading white space, read an optional sign and
    the longest run of digits; [None] is [NaN].  ([-0] and [0] are the
    same number for [===], so the sign of zero is not kept.)  The result is
    the integer the digits denote; the program holds this very number when
    it is a safe integer, and the nearest double otherwise. *)
Definition parseInt (s : string) : option Z :=
  match trimStart s with
  | String "-" s' => option_map Z.opp (parseDigits None s')
  | String "+" s' => parseDigits None s'
  | s' => parseDigits None s'
  end.

(** [Number.MAX_SAFE_INTEGER] and [Number.isSafeInteger] on integers: up
    to this bound every integer is a double, and the quotient by ten of
    one, rounded to a double, has the nearest integer of the exact
    quotient. *)
Definition MAX_SAFE_INTEGER : Z := 2 ^ 53 - 1.

Definition isSafeInteger (n : Z) : Prop := (Z.abs n <= MAX_SAFE_INTEGER)%Z.

(** ** [Math.round]: the nearest integer, ties towards +infinity. *)
Definition Math_round (x : Q) : Z := Qfloor (x + (1 # 2)).

(** [x > y] and [x === y] on numbers. *)
Definition gtb (x y : Q) : bool := negb (Qle_bool x y).
Definition eqb (x y : Q) : bool := Qeq_bool x y.

(** Template interpolation of an integer, [`${n}`]. *)
Definition showInt (n : Z) : string := NilZero.string_of_int (Z.to_int n).

(** ** JSON values, as produced by [Response.json()] *)
Inductive value : Type :=
| JNull
| JBool (b : bool)
| JNum (q : Q)
| JStr (s : string)
| JArr (items : list value)
| JObj (fields : list (string * value)).

(** Property access [o.k]; [None] is [undefined]. *)
Fixpoint lookup (k : string) (fields : list (string * value)) : option value :=
  match fields with
  | [] => None
  | (k', v) :: rest => if String.eqb k k' then Some v else lookup k rest
  end.

Definition get (k : string) (v : value) : option value :=
  match v with
  | JObj fields => lookup k fields
  | _ => None
  end.

End JS.
Export JS.

(* ================================================================== *)
(** * TypeBox: the schema combinators the client uses, and [Value.Check] *)

Module TypeBox.

Inductive Schema : Type :=
| TAny
| TString
| TNumber (minimum maximum : option Q)
| TLiteral (s : string)
| TEnum (members : list Z)
| TUnion (alternatives : list Schema)
| TArray (items : Schema)
| TOptional (inner : Schema)
| TObject (properties : list (string * Schema)).

Definition boundOk (le : Q -> Q -> bool) (bound : option Q) (q : Q) : bool :=
  match bound with
  | Some b => le b q
  | None => true
  end.

Definition isOptional (schema : Schema) : bool :=
  match schema with
  | TOptional _ => true
  | _ => false
  end.

(** [Value.Check(schema, value)] under the default type-system policy:
    objects may carry additional properties, a required property must be
    present, an optional one is checked only when present, [null] is not
    an object. *)
Fixpoint Value_Check (schema : Schema) (v : value) {struct schema} : bool :=
  match schema with
  | TAny => true
  | TString => match v with JStr _ => true | _ => false end
  | TNumber lo hi =>
      match v with
      | JNum q => boundOk Qle_bool lo q && boundOk (fun b x => Qle_bool x b) hi q
      | _ => false
      end
  | TLiteral s => match v with JStr s' => String.eqb s s' | _ => false end
  | TEnum members =>
      match v with
      | JNum q => existsb (fun m => Qeq_bool q (inject_Z m)) members
      | _ => false
      end
  | TUnion alternatives => existsb (fun s => Value_Check s v) alternatives
  | TArray items =>
      match v with
      | JArr l => forallb (Value_Check items) l
      | _ => false
      end
  | TOptional inner => Value_Check inner v
  | TObject properties =>
      match v with
      | JObj fields =>
          forallb
            (fun kp : string * Schema =>
               let (k, property) := kp in
               match lookup k fields with
               | Some x => Value_Check property x
               | None => isOptional property
               end)
            properties
      | _ => false
      end
  end.

End TypeBox.
Export TypeBox.

(* ================================================================== *)
(** * Entity references and entries of the Plex client *)

Module PlexTypes.

Inductive SectionRef : Type :=
| SectionByKey (byKey : string)
| SectionByName (byName : string).

Inductive ArtistRef : Type :=
| ArtistByKey (byKey : string)
| ArtistByName (byName : string) (bySection : SectionRef).

Inductive AlbumRef : Type :=
| AlbumByKey (byKey : string)
| AlbumByName (byArtist : ArtistRef) (byName : string).

Inductive TrackRef : Type :=
| TrackByKey (byKey : string)
| TrackByName (byAlbum : AlbumRef) (byName : string).

Record ArtistEntry : Type := mkArtist {
  artistKey : string;
  artistEntryName : string
}.

Record AlbumEntry : Type := mkAlbum {
  albumKey : string;
  albumEntryName : string;
  artistName : string
}.

Record TrackEntry : Type := mkTrack {
  trackKey : string;
  trackEntryName : string;
  albumName : string;
  rating : Q
}.

(** The references as the objects they are, for the log. *)
Definition sectionRefValue (ref : SectionRef) : value :=
  match ref with
  | SectionByKey k => JObj [("byKey", JStr k)]
  | SectionByName n => JObj [("byName", JStr n)]
  end.

Definition artistRefValue (ref : ArtistRef) : value :=
  match ref with
  | ArtistByKey k => JObj [("byKey", JStr k)]
  | ArtistByName n s =>
      JObj [("byName", JStr n); ("bySection", sectionRefValue s)]
  end.

Definition albumRefValue (ref : AlbumRef) : value :=
  match ref with
  | AlbumByKey k => JObj [("byKey", JStr k)]
  | AlbumByName a n =>
      JObj [("byArtist", artistRefValue a); ("byName", JStr n)]
  end.

End PlexTypes.
Export PlexTypes.

(* ================================================================== *)
(** * Effects: exceptions, the event trace and the outside world *)

Module Effects.

(** The exceptions the program throws or receives. *)
Inductive Exn : Type :=
| PlexFetchError                 (* class PlexFetchError: "Failed to fetch" *)
| PlexResponseError              (* class PlexResponseError: "Unexpected response" *)
| AssertError                    (* thrown by TypeBox's Value.Assert *)
| JsError (message : string)     (* new Error(message) *)
| SyntaxError                    (* Response.json() on a body that is not JSON *)
| TypeError (message : string)   (* thrown by Headers.set and by new URL *)
| Rejected (reason : string).    (* rejection of fetch() or runAppleScript() *)

Definition exnName (e : Exn) : string :=
  match e with
  | PlexFetchError => "PlexFetchError"
  | PlexResponseError => "PlexResponseError"
  | AssertError => "AssertError"
  | JsError _ => "Error"
  | SyntaxError => "SyntaxError"
  | TypeError _ => "TypeError"
  | Rejected _ => "Error"
  end.

(** The message of each error.  The one of [AssertError] stands for the text
    TypeBox composes from the first schema error; nothing below depends on
    its wording. *)
Definition exnMessage (e : Exn) : string :=
  match e with
  | PlexFetchError => "Failed to fetch"
  | PlexResponseError => "Unexpected response"
  | AssertError => "Assertion failed"
  | JsError m => m
  | SyntaxError => "Unexpected end of JSON input"
  | TypeError m => m
  | Rejected r => r
  end.

Inductive Result (A : Type) : Type :=
| Ok (a : A)
| Err (e : Exn).
Arguments Ok {A} a.
Arguments Err {A} e.

(** pino log levels and entries.  An entry carries the bindings of the
    (child) logger followed by the merging object of the call. *)
Inductive Level : Type := LTrace | LDebug | LInfo | LWarn | LError | LFatal.

Record LogEntry : Type := mkLog {
  level : Level;
  bindings : list (string * value);
  msg : string
}.

(** An outgoing HTTP request: [fetch(new URL(template.expand(url), baseUrl),
    { headers, method })].  The expanded template is kept as the template's
    name and the values of its variables. *)
Inductive Endpoint : Type :=
| LIBRARY_SECTION_GET_ALL
| METADATA_GET_CHILDREN
| ENTITY_RATING_UPDATE.

Record Request : Type := mkRequest {
  requestBase : string;
  requestEndpoint : Endpoint;
  requestVariables : list (string * value);
  requestHeaders : list (string * string);
  requestMethod : string
}.

(** What the program reads of a [Response]. *)
Record Response : Type := mkResponse {
  ok : bool;
  status : Z;
  statusText : string;
  contentLengthHeader : option string;   (* headers.get("Content-Length") *)
  text : string;                         (* await response.text() *)
  json : option value                    (* await response.json(); None throws *)
}.

Inductive Event : Type :=
| ELog (entry : LogEntry)
| ESleep (ms : Z)
| EFetch (request : Request)
| EAppleScript (script : string)
| EFloating (track : TrackRef) (rating : Q).
    (* [plexClient.setTrackRating({ track, rating })] called without
       [await]: the promise is created and dropped *)

(** The outside world.  The server, the bridge and the clock see the trace
    so far, so the same request may be answered differently at different
    times.  The platform decides which strings are legal header values and
    which are absolute URLs a path can be resolved against. *)
Record World : Type := mkWorld {
  http : list Event -> Request -> Result Response;
  appleScript : list Event -> string -> Result string;
  Date_now : list Event -> Z;
  Headers_accepts : string -> bool;
  URL_canParse : string -> bool
}.

(** Computations: a trace transformer that returns a value or throws. *)
Definition M (A : Type) : Type := list Event -> Result A * list Event.

Definition ret {A} (a : A) : M A := fun tr => (Ok a, tr).

Definition throw {A} (e : Exn) : M A := fun tr => (Err e, tr).

Definition bind {A B} (m : M A) (k : A -> M B) : M B :=
  fun tr =>
    match m tr with
    | (Ok a, tr') => k a tr'
    | (Err e, tr') => (Err e, tr')
    end.

(** [try { body } catch (error) { handler }] *)
Definition tryCatch {A} (body : M A) (handler : Exn -> M A) : M A :=
  fun tr =>
    match body tr with
    | (Ok a, tr') => (Ok a, tr')
    | (Err e, tr') => handler e tr'
    end.

Definition emit (e : Event) : M unit := fun tr => (Ok tt, (tr ++ [e])%list).

(** [await] of an oracle: the call is recorded, then answered. *)
Definition perform {A} (e : Event) (answer : list Event -> Result A) : M A :=
  fun tr => (answer tr, (tr ++ [e])%list).

Definition when (b : bool) (m : M unit) : M unit :=
  if b then m else ret tt.

(** [for (const x of xs) { body }]; a [continue] is the end of [body]. *)
Fixpoint forOf {A} (xs : list A) (body : A -> M unit) : M unit :=
  match xs with
  | [] => ret tt
  | x :: rest => bind (body x) (fun _ => forOf rest body)
  end.

(** [xs.map(callback)] with a callback that may log and throw. *)
Fixpoint mapM {A B} (callback : A -> M B) (xs : list A) : M (list B) :=
  match xs with
  | [] => ret []
  | x :: rest =>
      bind (callback x) (fun y =>
      bind (mapM callback rest) (fun ys => ret (y :: ys)))
  end.

End Effects.
Export Effects.

Declare Scope monad_scope.
Delimit Scope monad_scope with monad.
Notation "x <- m ;; k" := (bind m (fun x => k))
  (at level 61, m at next level, right associativity) : monad_scope.
Notation "m ;; k" := (bind m (fun _ => k))
  (at level 61, right associativity) : monad_scope.
Open Scope monad_scope.

(** ** pino loggers *)

Module Pino.

(** A logger is the list of its bindings. *)
Definition Logger : Type := list (string * value).

Definition child (logger : Logger) (extra : list (string * value)) : Logger :=
  (logger ++ extra)%list.

Definition log (lvl : Level) (logger : Logger)
    (merging : list (string * value)) (message : string) : M unit :=
  emit (ELog (mkLog lvl (logger ++ merging)%list message)).

(** The serialisation of an [Error] under the key [err]. *)
Definition errObject (e : Exn) : value :=
  JObj [("type", JStr (exnName e)); ("message", JStr (exnMessage e))].

Definition logError (lvl : Level) (logger : Logger) (e : Exn)
    (message : string) : M unit :=
  log lvl logger [("err", errObject e)] message.

End Pino.

(* ================================================================== *)
(** * apple-music-client.ts *)

Module AppleMusic.
Section WithWorld.

Variable world : World.

Record TrackFilters : Type := mkFilters {
  filterAlbumName : string;
  filterArtistName : string;
  filterTrackName : string
}.

Record AppleMusicClient : Type := mkAppleMusicClient {
  appleLogger : Pino.Logger
}.

Definition quote : string := String (ascii_of_nat 34) EmptyString.
Definition newline : string := String (ascii_of_nat 10) EmptyString.

(** The AppleScript source, after [Tags.source] removed the indentation
    of the template.  Only the track and artist names are interpolated.
    The names stand as they are, which is what [Tags.source] yields for a
    name on one line; a line feed inside a name is rewritten by it and is
    not followed here. *)
Definition script (filters : TrackFilters) : string :=
  "tell application " ++ quote ++ "Music" ++ quote ++ newline ++
  "  set search_results to (every file track of playlist " ++
    quote ++ "Library" ++ quote ++ " whose name contains " ++
    quote ++ filterTrackName filters ++ quote ++ " and artist contains " ++
    quote ++ filterArtistName filters ++ quote ++ ")" ++ newline ++
  "  repeat with t in search_results" ++ newline ++
  "    set track_rating to rating of t" ++ newline ++
  "    return track_rating" ++ newline ++
  "  end repeat" ++ newline ++
  "end tell".

Definition runAppleScript (source : string) : M string :=
  perform (EAppleScript source) (fun tr => appleScript world tr source).

Definition getAppleMusicRating (self : AppleMusicClient)
    (filters : TrackFilters) : M Q :=
  tryCatch
    (result <- runAppleScript (script filters) ;;
     match parseInt (trim result) with
     | None => ret 0%Q                               (* Number.isNaN(rating) *)
     | Some rating => ret (inject_Z (Math_round (inject_Z rating / 10)%Q))
     end)
    (fun error =>
       Pino.logError LError (appleLogger self) error
         "failed to retrieve Apple Music rating" ;;
       ret 0%Q).

End WithWorld.
End AppleMusic.

(* ================================================================== *)
(** * plex-client.ts *)

Module Plex.

Definition SearchType : list (string * Z) :=
  [ ("movie", 1); ("show", 2); ("season", 3); ("episode", 4);
    ("trailer", 5); ("comic", 6); ("person", 7); ("artist", 8);
    ("album", 9); ("track", 10); ("picture", 11); ("clip", 12);
    ("photo", 13); ("photoalbum", 14); ("playlist", 15);
    ("playlistFolder", 16); ("collection", 18); ("optimizedVersion", 42);
    ("userPlaylistItem", 1001) ]%Z.

Definition SearchType_artist : Z := 8.
Definition SearchType_album : Z := 9.

Record EndpointContract : Type := mkContract {
  requestSchema : Schema;
  responseSchema : Schema;
  template : list string        (* the variables of the URL template *)
}.

Definition EndpointConfig (endpoint : Endpoint) : EndpointContract :=
  match endpoint with
  | LIBRARY_SECTION_GET_ALL =>
      {| requestSchema :=
           TObject [("url", TObject
             [ ("key", TString);
               ("type", TEnum (map snd SearchType));
               ("sort", TOptional (TArray TString));
               ("limit", TOptional (TNumber None None)) ])];
         responseSchema :=
           TObject [("MediaContainer", TObject
             [("Metadata", TArray (TObject
                [ ("parentTitle", TOptional TString);
                  ("ratingKey", TString);
                  ("title", TString) ]))])];
         (* "/library/sections/{key}/all{?type,sort}" *)
         template := ["key"; "type"; "sort"] |}
  | METADATA_GET_CHILDREN =>
      {| requestSchema := TObject [("url", TObject [("key", TString)])];
         responseSchema :=
           TObject [("MediaContainer", TObject
             [("Metadata", TArray (TObject
                [ ("parentTitle", TOptional TString);
                  ("ratingKey", TString);
                  ("title", TString);
                  ("type", TUnion [TLiteral "album"; TLiteral "track"]);
                  ("userRating", TOptional (TNumber None None)) ]))])];
         (* "/library/metadata/{key}/children?excludeAllLeaves=1" *)
         template := ["key"] |}
  | ENTITY_RATING_UPDATE =>
      {| requestSchema :=
           TObject [("url", TObject
             [ ("identifier", TUnion [TLiteral "com.plexapp.plugins.library"]);
               ("key", TString);
               ("rating", TNumber (Some 0%Q) (Some 10%Q)) ])];
         responseSchema := TAny;
         (* "/:/rate{?identifier,key,rating}" *)
         template := ["identifier"; "key"; "rating"] |}
  end.

(** [template.expand(url)]: the variables of the template that [url]
    defines, in the order of the template; the others do not appear. *)
Fixpoint expand (variables : list string) (url : list (string * value))
    : list (string * value) :=
  match variables with
  | [] => []
  | x :: rest =>
      match lookup x url with
      | Some v => (x, v) :: expand rest url
      | None => expand rest url
      end
  end.

(** [Value.Assert(schema, value)] *)
Definition Value_Assert (schema : Schema) (v : value) : M unit :=
  if Value_Check schema v then ret tt else throw AssertError.

Record PlexClient : Type := mkPlexClient {
  authToken : string;
  baseUrl : string;
  plexLogger : Pino.Logger
}.

(** The static view of a validated listing body.  [Value.Assert] has
    passed when these are used, so the fall-back values are never taken
    (see [metadataOf_checked]). *)
Definition metadataOf (data : value) : list value :=
  match get "MediaContainer" data with
  | Some container =>
      match get "Metadata" container with
      | Some (JArr entries) => entries
      | _ => []
      end
  | None => []
  end.

Definition stringField (k : string) (entry : value) : string :=
  match get k entry with
  | Some (JStr s) => s
  | _ => ""
  end.

(** [entry.userRating ?? 0] *)
Definition userRatingOrZero (entry : value) : Q :=
  match get "userRating" entry with
  | Some (JNum q) => q
  | _ => 0%Q
  end.

Section WithWorld.

Variable world : World.

Definition getAlbumKey (ref : AlbumRef) : M string :=
  match ref with
  | AlbumByKey byKey => ret byKey
  | _ => throw (JsError "Not implemented")
  end.

Definition getArtistKey (ref : ArtistRef) : M string :=
  match ref with
  | ArtistByKey byKey => ret byKey
  | _ => throw (JsError "Not implemented")
  end.

Definition getSectionKey (ref : SectionRef) : M string :=
  match ref with
  | SectionByKey byKey => ret byKey
  | _ => throw (JsError "Not implemented")
  end.

Definition getTrackKey (ref : TrackRef) : M string :=
  match ref with
  | TrackByKey byKey => ret byKey
  | _ => throw (JsError "Not implemented")
  end.

(** [headers.set(name, value)] on the headers built so far. *)
Definition headersSet (headers : list (string * string)) (name value : string)
    : M (list (string * string)) :=
  if Headers_accepts world value
  then ret (headers ++ [(name, value)])%list
  else throw (TypeError "Invalid header value").

(** [new URL(path, base)] for a path expanded from a template. *)
Definition newURL (base : string) : M unit :=
  if URL_canParse world base then ret tt else throw (TypeError "Invalid URL").

(** The global [fetch]. *)
Definition globalFetch (request : Request) : M Response :=
  perform (EFetch request) (fun tr => http world tr request).

Definition responseJson (response : Response) : M value :=
  match json response with
  | Some v => ret v
  | None => throw SyntaxError
  end.

(** [private async fetch(endpoint, request)], with [request = { url }]. *)
Definition fetch (self : PlexClient) (endpoint : Endpoint)
    (url : list (string * value)) : M value :=
  let contract := EndpointConfig endpoint in
  Value_Assert (requestSchema contract) (JObj [("url", JObj url)]) ;;
  (* headers.set("Accept", "application/json") sets a legal constant *)
  headers <- headersSet [("Accept", "application/json")]
               "X-Plex-Token" (authToken self) ;;
  newURL (baseUrl self) ;;
  response <- globalFetch
    {| requestBase := baseUrl self;
       requestEndpoint := endpoint;
       requestVariables := expand (template contract) url;
       requestHeaders := headers;
       requestMethod := "GET" |} ;;
  if negb (ok response) then
    Pino.log LError (plexLogger self)
      [ ("body", JStr (text response));
        ("status", JNum (inject_Z (status response)));
        ("statusText", JStr (statusText response)) ]
      "fetch failed" ;;
    throw PlexFetchError
  else
    let contentLength :=
      parseInt (match contentLengthHeader response with
                | Some h => h
                | None => ""
                end) in
    body <- match contentLength with
            | Some 0%Z => ret JNull
            | _ => responseJson response
            end ;;
    Pino.log LDebug (plexLogger self) [("body", body)] "validating response" ;;
    Value_Assert (responseSchema contract) body ;;
    ret body.

Definition countOf (data : value) : list (string * value) :=
  [("count", JNum (inject_Z (Z.of_nat (List.length (metadataOf data)))))].

Definition listArtists (self : PlexClient) (section : SectionRef)
    : M (list ArtistEntry) :=
  Pino.log LDebug (plexLogger self)
    [("params", JObj [("section", sectionRefValue section)])]
    "fetching artists" ;;
  sectionKey <- getSectionKey section ;;
  Pino.log LDebug (plexLogger self) [("key", JStr sectionKey)]
    "resolved section key" ;;
  data <- fetch self LIBRARY_SECTION_GET_ALL
    [ ("key", JStr sectionKey);
      ("type", JNum (inject_Z SearchType_artist));
      ("limit", JNum 10) ] ;;
  Pino.log LDebug (plexLogger self) (countOf data) "fetched artist data" ;;
  mapM (fun artist =>
          Pino.log LDebug (plexLogger self) [("data", artist)]
            "transforming artist" ;;
          ret {| artistKey := stringField "ratingKey" artist;
                 artistEntryName := stringField "title" artist |})
       (metadataOf data).

(** The callback shared, textually, by [listAlbums] and
    [listArtistAlbums]. *)
Definition transformAlbum (self : PlexClient) (album : value) : M AlbumEntry :=
  Pino.log LDebug (plexLogger self) [("data", album)] "transforming album" ;;
  match get "parentTitle" album with
  | None => throw PlexResponseError
  | Some _ =>
      ret {| albumKey := stringField "ratingKey" album;
             albumEntryName := stringField "title" album;
             artistName := stringField "parentTitle" album |}
  end.

Definition listAlbums (self : PlexClient) (section : SectionRef)
    : M (list AlbumEntry) :=
  Pino.log LDebug (plexLogger self)
    [("params", JObj [("section", sectionRefValue section)])]
    "fetching albums" ;;
  sectionKey <- getSectionKey section ;;
  Pino.log LDebug (plexLogger self) [("key", JStr sectionKey)]
    "resolved section key" ;;
  data <- fetch self LIBRARY_SECTION_GET_ALL
    [ ("key", JStr sectionKey);
      ("type", JNum (inject_Z SearchType_album)) ] ;;
  Pino.log LDebug (plexLogger self) (countOf data) "fetched album data" ;;
  mapM (transformAlbum self) (metadataOf data).

Definition transformTrack (self : PlexClient) (track : value) : M TrackEntry :=
  Pino.log LDebug (plexLogger self) [("data", track)] "transforming track" ;;
  match get "parentTitle" track with
  | None => throw PlexResponseError
  | Some _ =>
      ret {| trackKey := stringField "ratingKey" track;
             trackEntryName := stringField "title" track;
             albumName := stringField "parentTitle" track;
             rating := userRatingOrZero track |}
  end.

Definition listAlbumTracks (self : PlexClient) (album : AlbumRef)
    : M (list TrackEntry) :=
  Pino.log LDebug (plexLogger self)
    [("params", JObj [("album", albumRefValue album)])]
    "fetching tracks" ;;
  key <- getAlbumKey album ;;
  Pino.log LDebug (plexLogger self) [("key", JStr key)] "resolved album key" ;;
  data <- fetch self METADATA_GET_CHILDREN [("key", JStr key)] ;;
  Pino.log LDebug (plexLogger self) (countOf data) "fetched tracks" ;;
  mapM (transformTrack self) (metadataOf data).

Definition listArtistAlbums (self : PlexClient) (artist : ArtistRef)
    : M (list AlbumEntry) :=
  Pino.log LDebug (plexLogger self)
    [("params", JObj [("artist", artistRefValue artist)])]
    "fetching albums" ;;
  key <- getArtistKey artist ;;
  Pino.log LDebug (plexLogger self) [("key", JStr key)] "resolved artist key" ;;
  data <- fetch self METADATA_GET_CHILDREN [("key", JStr key)] ;;
  Pino.log LDebug (plexLogger self) (countOf data) "fetched album data" ;;
  mapM (transformAlbum self) (metadataOf data).

Definition setTrackRating (self : PlexClient) (track : TrackRef) (rating : Q)
    : M unit :=
  key <- getTrackKey track ;;
  fetch self ENTITY_RATING_UPDATE
    [ ("identifier", JStr "com.plexapp.plugins.library");
      ("key", JStr key);
      ("rating", JNum rating) ] ;;
  ret tt.

End WithWorld.
End Plex.

(* ================================================================== *)
(** * index.ts: the sync engine *)

Module Ratesync.

Record RatesyncOptions : Type := mkOptions {
  dryRun : bool;
  overrideExisting : bool;
  plexAuthToken : string;
  plexBaseUrl : string
}.

Definition ratings (ourRating : Q) (theirRating : option Q)
    : list (string * value) :=
  [ ("ourRating", JNum ourRating);
    ("theirRating", match theirRating with
                    | Some r => JNum r
                    | None => JNull
                    end) ].

Section WithWorld.

Variable world : World.

Definition sleep (time : Z) : M unit := emit (ESleep time).

Definition now : M Z := fun tr => (Ok (Date_now world tr), tr).

(** [plexClient.setTrackRating({ track: { byKey }, rating })] as the engine
    writes it: the call is not awaited.  The promise it returns is dropped,
    so whatever [Plex.setTrackRating] does and however it settles happens
    outside the control flow of [run]: a rejection reaches neither the
    [catch] of [run] nor its caller (it is an unhandled rejection, left to
    the runtime).  The engine only creates the promise. *)
Definition callWithoutAwait (track : TrackRef) (rating : Q) : M unit :=
  emit (EFloating track rating).

(** The body of [for (const track of tracks)]. *)
Definition trackBody (logger : Pino.Logger) (options : RatesyncOptions)
    (appleMusicClient : AppleMusic.AppleMusicClient)
    (album : AlbumEntry) (track : TrackEntry) : M unit :=
  let trackLogger :=
    Pino.child logger
      [ ("artist", JStr (artistName album));
        ("album", JStr (albumName track));
        ("track", JStr (trackEntryName track)) ] in
  Pino.log LTrace trackLogger [] "initialized logger" ;;
  let ourRating := rating track in
  if negb (overrideExisting options) && gtb ourRating 0 then
    Pino.log LInfo trackLogger (ratings ourRating None)
      "skipping track with existing rating..."
  else
    Pino.log LDebug trackLogger [] "getting Apple Music rating..." ;;
    theirRating <- AppleMusic.getAppleMusicRating world appleMusicClient
      {| AppleMusic.filterArtistName := artistName album;
         AppleMusic.filterAlbumName := albumName track;
         AppleMusic.filterTrackName := trackEntryName track |} ;;
    if eqb theirRating 0 then
      Pino.log LInfo trackLogger (ratings ourRating (Some theirRating))
        "skipping unrated track"
    else if eqb theirRating ourRating then
      Pino.log LInfo trackLogger (ratings ourRating (Some theirRating))
        "skipping track with same rating..."
    else if eqb ourRating 0 then
      Pino.log LInfo trackLogger (ratings ourRating (Some theirRating))
        "setting rating..." ;;
      when (negb (dryRun options))
        (callWithoutAwait (TrackByKey (trackKey track)) theirRating)
    else if overrideExisting options then
      Pino.log LWarn trackLogger (ratings ourRating (Some theirRating))
        "overwriting rating..." ;;
      when (negb (dryRun options))
        (callWithoutAwait (TrackByKey (trackKey track)) theirRating)
    else
      throw (JsError "Unknown error").

(** The body of [for (const album of albums)]. *)
Definition albumBody (logger : Pino.Logger) (options : RatesyncOptions)
    (appleMusicClient : AppleMusic.AppleMusicClient)
    (plexClient : Plex.PlexClient) (album : AlbumEntry) : M unit :=
  if String.eqb (albumEntryName album) "" then
    Pino.log LWarn logger [("albumKey", JStr (albumKey album))]
      "missing album title"
  else
    Pino.log LDebug logger [("album", JStr (albumEntryName album))]
      "loading tracks list..." ;;
    tracks <- Plex.listAlbumTracks world plexClient
                (AlbumByKey (albumKey album)) ;;
    forOf tracks (trackBody logger options appleMusicClient album).

Definition run (logger : Pino.Logger) (options : RatesyncOptions) : M unit :=
  when (dryRun options)
    (Pino.log LWarn logger [] "performing dry run, no changes will be made" ;;
     sleep 2000) ;;
  when (overrideExisting options)
    (Pino.log LWarn logger [] "existing ratings will be overwritten" ;;
     Pino.log LWarn logger [] "waiting for 5 seconds to allow user to cancel" ;;
     sleep 5000) ;;
  startTime <- now ;;
  tryCatch
    (let appleMusicClient :=
       {| AppleMusic.appleLogger :=
            Pino.child logger [("component", JStr "AppleMusicClient")] |} in
     Pino.log LTrace logger [] "initialized Apple Music client" ;;
     let plexClient :=
       {| Plex.plexLogger :=
            Pino.child logger [("component", JStr "PlexClient")];
          Plex.authToken := plexAuthToken options;
          Plex.baseUrl := plexBaseUrl options |} in
     Pino.log LTrace logger [] "initialized Plex API client" ;;
     Pino.log LDebug logger [] "loading albums list..." ;;
     albums <- Plex.listAlbums world plexClient (SectionByKey "3") ;;
     forOf albums (albumBody logger options appleMusicClient plexClient))
    (fun error =>
       Pino.logError LFatal logger error (exnMessage error) ;;
       throw error) ;;
  endTime <- now ;;
  let executionTime := (endTime - startTime)%Z in
  Pino.log LInfo logger
    [("durationMs", JNum (inject_Z executionTime))]
    ("finished in " ++
     showInt (Math_round (inject_Z executionTime / 1000)%Q) ++ " sec").

End WithWorld.
End Ratesync.

(* ================================================================== *)
(** * What is observed of a trace *)

Module Observe.

(** The [setTrackRating] calls the engine made, in order. *)
Definition ratingCalls (tr : list Event) : list (TrackRef * Q) :=
  flat_map (fun e => match e with
                     | EFloating track r => [(track, r)]
                     | _ => []
                     end) tr.

(** The AppleScript sources handed to the bridge, in order. *)
Definition scriptsRun (tr : list Event) : list string :=
  flat_map (fun e => match e with
                     | EAppleScript source => [source]
                     | _ => []
                     end) tr.

(** The HTTP requests sent, in order. *)
Definition requestsSent (tr : list Event) : list Request :=
  flat_map (fun e => match e with
                     | EFetch request => [request]
                     | _ => []
                     end) tr.

(** The log entries, in order. *)
Definition logged (tr : list Event) : list LogEntry :=
  flat_map (fun e => match e with
                     | ELog entry => [entry]
                     | _ => []
                     end) tr.

Definition isFatal (entry : LogEntry) : bool :=
  match level entry with
  | LFatal => true
  | _ => false
  end.

End Observe.
Export Observe.

(* ================================================================== *)
(** * The control flow of the loop body, and the table of the specification *)

Module Decision.

(** The branch of the [if] chain in the body of the track loop that is
    taken for given ratings: the conditions of [Ratesync.trackBody] in
    their order, without the effects ([trackBody_decide] relates the
    two). *)
Inductive Branch : Type :=
| SkipExisting      (* "skipping track with existing rating..." *)
| SkipUnrated       (* "skipping unrated track" *)
| SkipSame          (* "skipping track with same rating..." *)
| SetRating         (* "setting rating..." *)
| Overwrite         (* "overwriting rating..." *)
| Unknown.          (* throw new Error("Unknown error") *)

Definition decide (overrideExisting : bool) (ourRating theirRating : Q)
    : Branch :=
  if negb overrideExisting && gtb ourRating 0 then SkipExisting
  else if eqb theirRating 0 then SkipUnrated
  else if eqb theirRating ourRating then SkipSame
  else if eqb ourRating 0 then SetRating
  else if overrideExisting then Overwrite
  else Unknown.

(** The five rows of the decision table, as the specification words
    them. *)
Inductive Row : Type := Row1 | Row2 | Row3 | Row4 | Row5.

Definition condition (row : Row) (overriding : bool) (ourRating theirRating : Q)
    : Prop :=
  match row with
  | Row1 => overriding = false /\ (0 < ourRating)%Q
  | Row2 => (theirRating == 0)%Q
  | Row3 => (theirRating == ourRating)%Q
  | Row4 => (ourRating == 0)%Q
  | Row5 => overriding = true
  end.

Definition position (row : Row) : nat :=
  match row with
  | Row1 => 1 | Row2 => 2 | Row3 => 3 | Row4 => 4 | Row5 => 5
  end.

(** First match wins: a row applies when its condition holds and the
    condition of no row above it does. *)
Definition applies (row : Row) (overriding : bool) (ourRating theirRating : Q)
    : Prop :=
  condition row overriding ourRating theirRating /\
  forall above, (position above < position row)%nat ->
                ~ condition above overriding ourRating theirRating.

Definition branchOf (row : Row) : Branch :=
  match row with
  | Row1 => SkipExisting
  | Row2 => SkipUnrated
  | Row3 => SkipSame
  | Row4 => SetRating
  | Row5 => Overwrite
  end.

(** Rows 4 and 5 write the candidate rating. *)
Definition writes (row : Row) : Prop := row = Row4 \/ row = Row5.

End Decision.
Export Decision.

(* ================================================================== *)
(** * The value the Local Rating Reader derives from a bridge outcome *)

Module Reader.

(** [Math.round(rating / 10)] of a parsed native rating. *)
Definition scaled (native : Z) : Q :=
  inject_Z (Math_round (inject_Z native / 10)%Q).

(** The number [getAppleMusicRating] returns for an outcome of
    [runAppleScript] ([getAppleMusicRating_value]). *)
Definition ratingOf (outcome : Result string) : Q :=
  match outcome with
  | Ok result =>
      match parseInt (trim result) with
      | Some native => scaled native
      | None => 0%Q
      end
  | Err _ => 0%Q
  end.

(** The outcomes the specification calls a bridge failure: the process
    failed, or its output holds no number. *)
Definition bridgeFailed (outcome : Result string) : Prop :=
  match outcome with
  | Ok result => parseInt (trim result) = None
  | Err _ => True
  end.

(** The entry logged when the bridge call throws. *)
Definition failureEntry (logger : Pino.Logger) (e : Exn) : LogEntry :=
  mkLog LError (logger ++ [("err", Pino.errObject e)])%list
    "failed to retrieve Apple Music rating".

End Reader.

(* ================================================================== *)
(** * Names for the parts of one call of the Plex client *)

Module Client.

(** The request [fetch] sends for [endpoint] and the parameters [url]. *)
Definition requestFor (self : Plex.PlexClient) (endpoint : Endpoint)
    (url : list (string * value)) : Request :=
  {| requestBase := Plex.baseUrl self;
     requestEndpoint := endpoint;
     requestVariables := Plex.expand (Plex.template (Plex.EndpointConfig endpoint)) url;
     requestHeaders :=
       [("Accept", "application/json"); ("X-Plex-Token", Plex.authToken self)];
     requestMethod := "GET" |}.

Definition validRequest (endpoint : Endpoint) (url : list (string * value))
    : bool :=
  Value_Check (Plex.requestSchema (Plex.EndpointConfig endpoint))
    (JObj [("url", JObj url)]).

(** The platform accepts the token as a header value and the base URL as
    the base of a request URL. *)
Definition canSend (world : World) (self : Plex.PlexClient) : bool :=
  Headers_accepts world (Plex.authToken self) &&
  URL_canParse world (Plex.baseUrl self).

(** [parseInt(response.headers.get("Content-Length") ?? "", 10)] *)
Definition contentLength (response : Response) : option Z :=
  parseInt (match contentLengthHeader response with
            | Some h => h
            | None => ""
            end).

(** The parameters each operation passes to [fetch]. *)
Definition sectionUrl (key : string) (type : Z) : list (string * value) :=
  [("key", JStr key); ("type", JNum (inject_Z type))].

Definition artistsUrl (key : string) : list (string * value) :=
  [ ("key", JStr key);
    ("type", JNum (inject_Z Plex.SearchType_artist));
    ("limit", JNum 10) ].

Definition childrenUrl (key : string) : list (string * value) :=
  [("key", JStr key)].

Definition rateUrl (key : string) (rating : Q) : list (string * value) :=
  [ ("identifier", JStr "com.plexapp.plugins.library");
    ("key", JStr key);
    ("rating", JNum rating) ].

(** A listing body with the given metadata entries. *)
Definition container (entries : list value) : value :=
  JObj [("MediaContainer", JObj [("Metadata", JArr entries)])].

(** The metadata object of a track with the fields of [track]; the
    [userRating] property is present only when [userRating] is. *)
Definition trackObject (track : TrackEntry) (userRating : option Q) : value :=
  JObj ([ ("parentTitle", JStr (albumName track));
          ("ratingKey", JStr (trackKey track));
          ("title", JStr (trackEntryName track));
          ("type", JStr "track") ] ++
        match userRating with
        | Some q => [("userRating", JNum q)]
        | None => []
        end)%list.

(** The entry [transformTrack] builds from such an object. *)
Definition withRating (track : TrackEntry) (userRating : option Q) : TrackEntry :=
  {| trackKey := trackKey track;
     trackEntryName := trackEntryName track;
     albumName := albumName track;
     rating := match userRating with
               | Some q => q
               | None => 0%Q
               end |}.

(** The server answers [request] with [response] whenever it is asked. *)
Definition answers (world : World) (request : Request) (response : Response)
    : Prop :=
  forall tr, http world tr request = Ok response.

(** Some entry of the listing has no [parentTitle]. *)
Definition lacksParent (payload : value) : Prop :=
  exists entry,
    In entry (Plex.metadataOf payload) /\ get "parentTitle" entry = None.

(** The error a listing with an entry without parent ends in: the one of
    the callback when the payload has the declared shape, the one of
    [Value.Assert] when it does not. *)
Definition raisedFor {A : Type} (endpoint : Endpoint) (payload : value)
    : Result A :=
  if Value_Check (Plex.responseSchema (Plex.EndpointConfig endpoint)) payload
  then Err PlexResponseError
  else Err AssertError.

Definition debugBody (self : Plex.PlexClient) (body : value) : Event :=
  ELog (mkLog LDebug (Plex.plexLogger self ++ [("body", body)])%list
          "validating response").

(** The entry [fetch] logs for a response whose status is not a success. *)
Definition fetchFailed (self : Plex.PlexClient) (response : Response) : Event :=
  ELog (mkLog LError
          (Plex.plexLogger self ++
           [ ("body", JStr (text response));
             ("status", JNum (inject_Z (status response)));
             ("statusText", JStr (statusText response)) ])%list
          "fetch failed").

(** The entries the callbacks of the listing operations build. *)
Definition artistOf (entry : value) : ArtistEntry :=
  {| artistKey := Plex.stringField "ratingKey" entry;
     artistEntryName := Plex.stringField "title" entry |}.

Definition albumOf (entry : value) : AlbumEntry :=
  {| albumKey := Plex.stringField "ratingKey" entry;
     albumEntryName := Plex.stringField "title" entry;
     artistName := Plex.stringField "parentTitle" entry |}.

Definition trackOf (entry : value) : TrackEntry :=
  {| trackKey := Plex.stringField "ratingKey" entry;
     trackEntryName := Plex.stringField "title" entry;
     albumName := Plex.stringField "parentTitle" entry;
     rating := Plex.userRatingOrZero entry |}.

(** Every entry of the listing has an empty [title]. *)
Definition allUntitled (payload : value) : Prop :=
  forall entry, In entry (Plex.metadataOf payload) ->
                Plex.stringField "title" entry = "".

(** Every entry of the listing has a [parentTitle]. *)
Definition allHaveParent (payload : value) : Prop :=
  forall entry, In entry (Plex.metadataOf payload) ->
                get "parentTitle" entry <> None.

(** A body was received: either none was sent ([Content-Length: 0], read
    as [null]) or the one sent parses as JSON. *)
Definition bodyOf (response : Response) : option value :=
  match contentLength response with
  | Some 0%Z => Some JNull
  | _ => json response
  end.

End Client.

(* ================================================================== *)
(** * Names for the parts of one iteration of the track loop *)

Module Engine.

Definition filtersFor (album : AlbumEntry) (track : TrackEntry)
    : AppleMusic.TrackFilters :=
  {| AppleMusic.filterArtistName := artistName album;
     AppleMusic.filterAlbumName := albumName track;
     AppleMusic.filterTrackName := trackEntryName track |}.

Definition trackLogger (logger : Pino.Logger) (album : AlbumEntry)
    (track : TrackEntry) : Pino.Logger :=
  Pino.child logger
    [ ("artist", JStr (artistName album));
      ("album", JStr (albumName track));
      ("track", JStr (trackEntryName track)) ].

Definition entry (lvl : Level) (logger : Pino.Logger)
    (merging : list (string * value)) (message : string) : Event :=
  ELog (mkLog lvl (logger ++ merging)%list message).

(** What an iteration logs before it asks the reader. *)
Definition beforeLookup (logger : Pino.Logger) (album : AlbumEntry)
    (track : TrackEntry) : list Event :=
  [ entry LTrace (trackLogger logger album track) [] "initialized logger";
    entry LDebug (trackLogger logger album track) []
      "getting Apple Music rating..." ].

(** The candidate rating the reader has for [track] when the iteration
    starts from trace [tr]. *)
Definition theirRatingAt (world : World) (logger : Pino.Logger)
    (album : AlbumEntry) (track : TrackEntry) (tr : list Event) : Q :=
  Reader.ratingOf
    (appleScript world (tr ++ beforeLookup logger album track)%list
       (AppleMusic.script (filtersFor album track))).

(** The events of the reader's call made from trace [tr]: the script is
    run, and a failure of the process is logged. *)
Definition lookupEvents (world : World)
    (appleMusicClient : AppleMusic.AppleMusicClient) (logger : Pino.Logger)
    (album : AlbumEntry) (track : TrackEntry) (tr : list Event) : list Event :=
  EAppleScript (AppleMusic.script (filtersFor album track)) ::
  match appleScript world (tr ++ beforeLookup logger album track)%list
          (AppleMusic.script (filtersFor album track)) with
  | Ok _ => []
  | Err e =>
      [ELog (Reader.failureEntry (AppleMusic.appleLogger appleMusicClient) e)]
  end.

(** What each branch of the [if] chain logs and calls. *)
Definition branchEvents (branch : Branch) (logger : Pino.Logger)
    (dry : bool) (album : AlbumEntry) (track : TrackEntry) (theirRating : Q)
    : list Event :=
  let tlog := trackLogger logger album track in
  let both := Ratesync.ratings (rating track) (Some theirRating) in
  let call :=
    if dry then [] else [EFloating (TrackByKey (trackKey track)) theirRating] in
  match branch with
  | SkipExisting =>
      [entry LInfo tlog (Ratesync.ratings (rating track) None)
         "skipping track with existing rating..."]
  | SkipUnrated => [entry LInfo tlog both "skipping unrated track"]
  | SkipSame => [entry LInfo tlog both "skipping track with same rating..."]
  | SetRating => entry LInfo tlog both "setting rating..." :: call
  | Overwrite => entry LWarn tlog both "overwriting rating..." :: call
  | Unknown => []
  end.

(** The entry that records the decision of each row of the table: the
    level, the ratings and the message the loop body gives it. *)
Definition decisionEntry (row : Row) (logger : Pino.Logger)
    (album : AlbumEntry) (track : TrackEntry) (theirRating : Q) : LogEntry :=
  let tlog := trackLogger logger album track in
  let both := Ratesync.ratings (rating track) (Some theirRating) in
  match row with
  | Row1 =>
      mkLog LInfo (tlog ++ Ratesync.ratings (rating track) None)%list
        "skipping track with existing rating..."
  | Row2 => mkLog LInfo (tlog ++ both)%list "skipping unrated track"
  | Row3 =>
      mkLog LInfo (tlog ++ both)%list "skipping track with same rating..."
  | Row4 => mkLog LInfo (tlog ++ both)%list "setting rating..."
  | Row5 => mkLog LWarn (tlog ++ both)%list "overwriting rating..."
  end.

Definition branchResult (branch : Branch) : Result unit :=
  match branch with
  | Unknown => Err (JsError "Unknown error")
  | _ => Ok tt
  end.

(** The two announcements [run] makes before the pass. *)
Definition announce (logger : Pino.Logger) (options : Ratesync.RatesyncOptions)
    : M unit :=
  when (Ratesync.dryRun options)
    (Pino.log LWarn logger [] "performing dry run, no changes will be made" ;;
     Ratesync.sleep 2000) ;;
  when (Ratesync.overrideExisting options)
    (Pino.log LWarn logger [] "existing ratings will be overwritten" ;;
     Pino.log LWarn logger [] "waiting for 5 seconds to allow user to cancel" ;;
     Ratesync.sleep 5000).

(** The clients [run] builds. *)
Definition appleClientOf (logger : Pino.Logger) : AppleMusic.AppleMusicClient :=
  {| AppleMusic.appleLogger :=
       Pino.child logger [("component", JStr "AppleMusicClient")] |}.

Definition plexClientOf (logger : Pino.Logger)
    (options : Ratesync.RatesyncOptions) : Plex.PlexClient :=
  {| Plex.plexLogger := Pino.child logger [("component", JStr "PlexClient")];
     Plex.authToken := Ratesync.plexAuthToken options;
     Plex.baseUrl := Ratesync.plexBaseUrl options |}.

(** The [try] block of [run]. *)
Definition tryBlock (world : World) (logger : Pino.Logger)
    (options : Ratesync.RatesyncOptions) : M unit :=
  Pino.log LTrace logger [] "initialized Apple Music client" ;;
  Pino.log LTrace logger [] "initialized Plex API client" ;;
  Pino.log LDebug logger [] "loading albums list..." ;;
  albums <- Plex.listAlbums world (plexClientOf logger options)
              (SectionByKey "3") ;;
  forOf albums
    (Ratesync.albumBody world logger options (appleClientOf logger)
       (plexClientOf logger options)).

(** The entry of [logger.fatal(error)]. *)
Definition fatalEntry (logger : Pino.Logger) (e : Exn) : Event :=
  ELog (mkLog LFatal (logger ++ [("err", Pino.errObject e)])%list
          (exnMessage e)).

(** The same options with the dry-run flag set to [dry]. *)
Definition withDryRun (dry : bool) (options : Ratesync.RatesyncOptions)
    : Ratesync.RatesyncOptions :=
  {| Ratesync.dryRun := dry;
     Ratesync.overrideExisting := Ratesync.overrideExisting options;
     Ratesync.plexAuthToken := Ratesync.plexAuthToken options;
     Ratesync.plexBaseUrl := Ratesync.plexBaseUrl options |}.

End Engine.

(* ================================================================== *)
(** * Shapes of traces *)

Module Trace.

(** The computation only appends to the trace, and every event it appends
    satisfies [P]. *)
Definition appendsOnly {A : Type} (P : Event -> Prop) (m : M A) : Prop :=
  forall tr, exists evs, snd (m tr) = (tr ++ evs)%list /\ Forall P evs.

(** The pauses, in order. *)
Definition sleeps (tr : list Event) : list Z :=
  flat_map (fun e => match e with
                     | ESleep ms => [ms]
                     | _ => []
                     end) tr.

Definition notFatal (e : Event) : Prop :=
  match e with
  | ELog entry => level entry <> LFatal
  | _ => True
  end.

(** A [setTrackRating] call as the track loop makes it: by key, with a
    rating that is an integer and not 0. *)
Definition soundCall (call : TrackRef * Q) : Prop :=
  (exists key, fst call = TrackByKey key) /\
  ~ (snd call == 0)%Q /\
  exists z : Z, snd call = inject_Z z.

(** What the [try] block of [run] may append: log entries below fatal,
    requests, scripts, and, outside a dry run, sound calls; no pause. *)
Definition passEvent (options : Ratesync.RatesyncOptions) (e : Event) : Prop :=
  match e with
  | ELog entry => level entry <> LFatal
  | ESleep _ => False
  | EFetch _ => True
  | EAppleScript _ => True
  | EFloating track r =>
      Ratesync.dryRun options = false /\ soundCall (track, r)
  end.

(** The announcements of [run], as events. *)
Definition announced (logger : Pino.Logger) (options : Ratesync.RatesyncOptions)
    : list Event :=
  ((if Ratesync.dryRun options
    then [ Engine.entry LWarn logger []
             "performing dry run, no changes will be made";
           ESleep 2000 ]
    else []) ++
   (if Ratesync.overrideExisting options
    then [ Engine.entry LWarn logger [] "existing ratings will be overwritten";
           Engine.entry LWarn logger []
             "waiting for 5 seconds to allow user to cancel";
           ESleep 5000 ]
    else []))%list.

(** The summary [run] logs at the end of a pass that took [duration]
    milliseconds. *)
Definition summaryEntry (logger : Pino.Logger) (duration : Z) : Event :=
  Engine.entry LInfo logger [("durationMs", JNum (inject_Z duration))]
    ("finished in " ++
     showInt (Math_round (inject_Z duration / 1000)%Q) ++ " sec").

(** The warning the album loop logs for an album without a title. *)
Definition untitledWarning (logger : Pino.Logger) (album : AlbumEntry) : Event :=
  Engine.entry LWarn logger [("albumKey", JStr (albumKey album))]
    "missing album title".

(** The first request of a pass: the albums of section "3". *)
Definition sectionRequest (logger : Pino.Logger)
    (options : Ratesync.RatesyncOptions) : Request :=
  Client.requestFor (Engine.plexClientOf logger options)
    LIBRARY_SECTION_GET_ALL (Client.sectionUrl "3" Plex.SearchType_album).

End Trace.

(* ================================================================== *)
(** * Concrete worlds and inputs used by the examples below *)

Module Examples.

Definition client : AppleMusic.AppleMusicClient :=
  {| AppleMusic.appleLogger := [("component", JStr "AppleMusicClient")] |}.

Definition comeTogether : AppleMusic.TrackFilters :=
  {| AppleMusic.filterAlbumName := "Abbey Road";
     AppleMusic.filterArtistName := "The Beatles";
     AppleMusic.filterTrackName := "Come Together" |}.

Definition silentServer : list Event -> Request -> Result Response :=
  fun _ _ => Err (Rejected "unreachable").

(** A bridge that prints [output] for every script. *)
Definition bridgePrints (output : string) : World :=
  {| http := silentServer;
     appleScript := fun _ _ => Ok output;
     Date_now := fun _ => 0%Z;
     Headers_accepts := fun _ => true;
     URL_canParse := fun _ => true |}.

(** A bridge whose process fails. *)
Definition bridgeFails : World :=
  {| http := silentServer;
     appleScript := fun _ _ => Err (Rejected "osascript: execution error");
     Date_now := fun _ => 0%Z;
     Headers_accepts := fun _ => true;
     URL_canParse := fun _ => true |}.

Definition options (dry overriding : bool) : Ratesync.RatesyncOptions :=
  {| Ratesync.dryRun := dry;
     Ratesync.overrideExisting := overriding;
     Ratesync.plexAuthToken := "token";
     Ratesync.plexBaseUrl := "http://plex.local:32400" |}.

Definition abbeyRoad : AlbumEntry :=
  {| albumKey := "101";
     albumEntryName := "Abbey Road";
     artistName := "The Beatles" |}.

(** The track "Come Together" with the remote rating [r]. *)
Definition trackRated (r : Q) : TrackEntry :=
  {| trackKey := "200";
     trackEntryName := "Come Together";
     albumName := "Abbey Road";
     rating := r |}.

Definition plex : Plex.PlexClient :=
  {| Plex.authToken := "token";
     Plex.baseUrl := "http://plex.local:32400";
     Plex.plexLogger := [("component", JStr "PlexClient")] |}.

(** A server that answers every request with [response]. *)
Definition serverReplies (response : Response) : World :=
  {| http := fun _ _ => Ok response;
     appleScript := fun _ _ => Ok "80";
     Date_now := fun _ => 0%Z;
     Headers_accepts := fun _ => true;
     URL_canParse := fun _ => true |}.

(** 200 OK with [Content-Length: 0]. *)
Definition emptyResponse : Response :=
  {| ok := true;
     status := 200;
     statusText := "OK";
     contentLengthHeader := Some "0";
     text := "";
     json := None |}.

(** 200 OK with the JSON body [body]. *)
Definition jsonResponse (body : value) : Response :=
  {| ok := true;
     status := 200;
     statusText := "OK";
     contentLengthHeader := None;
     text := "";
     json := Some body |}.

(** A section listing whose only album has no [parentTitle]. *)
Definition orphanAlbums : value :=
  Client.container
    [JObj [("ratingKey", JStr "101"); ("title", JStr "Abbey Road")]].

(** A children listing whose only entry has no [parentTitle]. *)
Definition orphanChildren : value :=
  Client.container
    [JObj [ ("ratingKey", JStr "200"); ("title", JStr "Come Together");
            ("type", JStr "track"); ("userRating", JNum 6) ]].

(** Four tracks: rated -3, 3.5 and 11, and one without [userRating]. *)
Definition oddRatings : list (TrackEntry * option Q) :=
  [ (trackRated 0, Some (-3)%Q);
    (trackRated 0, Some (7 # 2)%Q);
    (trackRated 0, Some 11%Q);
    (trackRated 0, None) ].

(** The section holds the album "Abbey Road" with two unrated tracks.
    The server lists them, and answers every rating update with 500. *)
Definition oneAlbum : value :=
  Client.container
    [JObj [ ("parentTitle", JStr "The Beatles"); ("ratingKey", JStr "101");
            ("title", JStr "Abbey Road") ]].

Definition twoTracks : value :=
  Client.container
    [ JObj [ ("parentTitle", JStr "Abbey Road"); ("ratingKey", JStr "200");
             ("title", JStr "Come Together"); ("type", JStr "track") ];
      JObj [ ("parentTitle", JStr "Abbey Road"); ("ratingKey", JStr "201");
             ("title", JStr "Something"); ("type", JStr "track") ] ].

Definition serverError : Response :=
  {| ok := false;
     status := 500;
     statusText := "Internal Server Error";
     contentLengthHeader := None;
     text := "rating update failed";
     json := None |}.

Definition ratingUpdatesFail : World :=
  {| http := fun _ request =>
       match requestEndpoint request with
       | LIBRARY_SECTION_GET_ALL => Ok (jsonResponse oneAlbum)
       | METADATA_GET_CHILDREN => Ok (jsonResponse twoTracks)
       | ENTITY_RATING_UPDATE => Ok serverError
       end;
     appleScript := fun _ _ => Ok "80";
     Date_now := fun _ => 0%Z;
     Headers_accepts := fun _ => true;
     URL_canParse := fun _ => true |}.

(** The same library on a server whose track listing fails. *)
Definition trackListingFails : World :=
  {| http := fun _ request =>
       match requestEndpoint request with
       | LIBRARY_SECTION_GET_ALL => Ok (jsonResponse oneAlbum)
       | _ => Ok serverError
       end;
     appleScript := fun _ _ => Ok "80";
     Date_now := fun _ => 0%Z;
     Headers_accepts := fun _ => true;
     URL_canParse := fun _ => true |}.

(** 200 OK without a [Content-Length] header and with a body that is not
    JSON (an empty body, for one). *)
Definition unannouncedEmpty : Response :=
  {| ok := true;
     status := 200;
     statusText := "OK";
     contentLengthHeader := None;
     text := "";
     json := None |}.

(** A section listing of two albums without a title. *)
Definition untitledAlbums : value :=
  Client.container
    [ JObj [ ("parentTitle", JStr "The Beatles"); ("ratingKey", JStr "101");
             ("title", JStr "") ];
      JObj [ ("parentTitle", JStr "Pink Floyd"); ("ratingKey", JStr "102");
             ("title", JStr "") ] ].

(** A section listing of two artists. *)
Definition twoArtists : value :=
  Client.container
    [ JObj [("ratingKey", JStr "11"); ("title", JStr "The Beatles")];
      JObj [("ratingKey", JStr "12"); ("title", JStr "Pink Floyd")] ].

End Examples.

(* ================================================================== *)
(** * Properties *)

(** ** Arithmetic of the rating conversion *)

Lemma Math_round_tenth (n : Z) :
  Math_round (inject_Z n / 10)%Q = ((n + 5) / 10)%Z.
Proof.
  unfold Math_round, Qfloor, Qdiv, Qmult, Qplus, Qinv, inject_Z; simpl.
  replace (n * 1 * 2 + 10)%Z with ((n + 5) * 2)%Z by lia.
  change 20%Z with (10 * 2)%Z.
  apply Z.div_mul_cancel_r; lia.
Qed.

Lemma scaled_eq (n : Z) : Reader.scaled n = inject_Z ((n + 5) / 10).
Proof. unfold Reader.scaled. now rewrite Math_round_tenth. Qed.

(** [Math.round(n / 10)] is the integer nearest to [n / 10], the tie going
    upwards. *)
Lemma nearest_tenth (n : Z) :
  (10 * ((n + 5) / 10) - 5 <= n < 10 * ((n + 5) / 10) + 5)%Z.
Proof.
  pose proof (Z.div_mod (n + 5) 10 ltac:(lia)).
  pose proof (Z.mod_pos_bound (n + 5) 10 ltac:(lia)).
  lia.
Qed.

(** ** The Local Rating Reader *)

Section ReaderFacts.

Variable world : World.
Variable self : AppleMusic.AppleMusicClient.
Variable filters : AppleMusic.TrackFilters.

(** One call of the reader: the script is run once; the value returned is
    [ratingOf] the outcome; an entry is logged only when the call threw. *)
Lemma getAppleMusicRating_run (tr : list Event) :
  let outcome := appleScript world tr (AppleMusic.script filters) in
  AppleMusic.getAppleMusicRating world self filters tr =
    (Ok (Reader.ratingOf outcome),
     (tr ++ EAppleScript (AppleMusic.script filters) ::
        match outcome with
        | Ok _ => []
        | Err e => [ELog (Reader.failureEntry (AppleMusic.appleLogger self) e)]
        end)%list).
Proof.
  cbv zeta.
  unfold AppleMusic.getAppleMusicRating, tryCatch, bind,
    AppleMusic.runAppleScript, perform, Reader.ratingOf.
  destruct (appleScript world tr (AppleMusic.script filters)) as [result | e].
  - destruct (parseInt (trim result)); reflexivity.
  - unfold Pino.logError, Pino.log, emit, ret, Reader.failureEntry.
    now rewrite <- app_assoc.
Qed.

Lemma getAppleMusicRating_value (tr : list Event) :
  fst (AppleMusic.getAppleMusicRating world self filters tr) =
    Ok (Reader.ratingOf (appleScript world tr (AppleMusic.script filters))).
Proof. now rewrite getAppleMusicRating_run. Qed.

End ReaderFacts.

Lemma logged_app (a b : list Event) : logged (a ++ b) = (logged a ++ logged b)%list.
Proof. apply flat_map_app. Qed.

Lemma scriptsRun_app (a b : list Event) :
  scriptsRun (a ++ b) = (scriptsRun a ++ scriptsRun b)%list.
Proof. apply flat_map_app. Qed.

Lemma ratingCalls_app (a b : list Event) :
  ratingCalls (a ++ b) = (ratingCalls a ++ ratingCalls b)%list.
Proof. apply flat_map_app. Qed.

Lemma requestsSent_app (a b : list Event) :
  requestsSent (a ++ b) = (requestsSent a ++ requestsSent b)%list.
Proof. apply flat_map_app. Qed.

(** C2, as stated, fails: the bridge prints the native rating 100 (five
    stars), it is parsed, and the reader returns 10, which is outside the
    0-5 scale. *)
Lemma native_100_is_read_as_10 :
  parseInt (trim "100") = Some 100%Z /\
  fst (AppleMusic.getAppleMusicRating (Examples.bridgePrints "100")
         Examples.client Examples.comeTogether []) = Ok 10%Q /\
  ~ (10 <= 5)%Q.
Proof.
  split; [reflexivity | split; [reflexivity | ]].
  intro H. now apply Qle_bool_iff in H.
Qed.

(** C2, amended: a successfully parsed native rating [native] that is a
    safe integer is divided by ten and rounded to the nearest integer (a
    tie goes up), and that integer is returned.  Native ratings in 0-100
    land in 0-10, and the result lies in 0-5 exactly for the native ratings
    from -5 to 54. *)
Theorem getAppleMusicRating_scale
    (world : World) (self : AppleMusic.AppleMusicClient)
    (filters : AppleMusic.TrackFilters) (tr : list Event)
    (result : string) (native : Z) :
  appleScript world tr (AppleMusic.script filters) = Ok result ->
  parseInt (trim result) = Some native ->
  isSafeInteger native ->
  exists shared : Z,
    fst (AppleMusic.getAppleMusicRating world self filters tr)
      = Ok (inject_Z shared) /\
    (10 * shared - 5 <= native < 10 * shared + 5)%Z /\
    ((0 <= native <= 100)%Z -> (0 <= shared <= 10)%Z) /\
    ((0 <= shared <= 5)%Z <-> (-5 <= native <= 54)%Z).
Proof.
  intros Hbridge Hparse _.
  exists ((native + 5) / 10)%Z.
  rewrite getAppleMusicRating_value, Hbridge.
  unfold Reader.ratingOf. rewrite Hparse, scaled_eq.
  pose proof (nearest_tenth native) as Hnear.
  repeat split; try lia.
Qed.

Lemma getAppleMusicRating_scale_witness :
  exists shared : Z,
    fst (AppleMusic.getAppleMusicRating (Examples.bridgePrints "80")
           Examples.client Examples.comeTogether []) = Ok (inject_Z shared) /\
    (10 * shared - 5 <= 80 < 10 * shared + 5)%Z /\
    ((0 <= 80 <= 100)%Z -> (0 <= shared <= 10)%Z) /\
    ((0 <= shared <= 5)%Z <-> (-5 <= 80 <= 54)%Z).
Proof.
  apply (getAppleMusicRating_scale (Examples.bridgePrints "80")
           Examples.client Examples.comeTogether [] "80" 80%Z);
    [ reflexivity | reflexivity | ].
  unfold isSafeInteger, MAX_SAFE_INTEGER. simpl. lia.
Defined.

(** C7, as stated, fails on "logged": the search matches nothing, the
    bridge prints nothing, and the reader returns 0 without any log
    entry. *)
Lemma no_match_is_not_logged :
  Reader.bridgeFailed (Ok "") /\
  AppleMusic.getAppleMusicRating (Examples.bridgePrints "")
    Examples.client Examples.comeTogether []
  = (Ok 0%Q, [EAppleScript (AppleMusic.script Examples.comeTogether)]) /\
  logged (snd (AppleMusic.getAppleMusicRating (Examples.bridgePrints "")
                 Examples.client Examples.comeTogether [])) = [].
Proof. repeat split. Qed.

(** C7, amended: [getAppleMusicRating] always returns a number and never
    throws.  Every bridge failure (the process failed, or its output holds
    no number) gives 0, the value an unrated track gives too.  A failure
    of the process is logged at error level; an output without a number
    (no match, empty or non-numeric text) is not logged. *)
Theorem getAppleMusicRating_never_throws
    (world : World) (self : AppleMusic.AppleMusicClient)
    (filters : AppleMusic.TrackFilters) (tr : list Event) :
  let outcome := appleScript world tr (AppleMusic.script filters) in
  let call := AppleMusic.getAppleMusicRating world self filters tr in
  (exists r, fst call = Ok r) /\
  (Reader.bridgeFailed outcome -> fst call = Ok 0%Q) /\
  (forall result, outcome = Ok result ->
     parseInt (trim result) = Some 0%Z -> fst call = Ok 0%Q) /\
  (forall e, outcome = Err e ->
     logged (snd call) =
       (logged tr ++ [Reader.failureEntry (AppleMusic.appleLogger self) e])%list) /\
  (forall result, outcome = Ok result -> logged (snd call) = logged tr).
Proof.
  cbv zeta. rewrite getAppleMusicRating_run. cbn [fst snd].
  destruct (appleScript world tr (AppleMusic.script filters)) as [result | e].
  - split; [eauto | ]. split.
    + cbn. intros ->. reflexivity.
    + split; [ | split].
      * intros ? [= <-] Hzero. cbn. now rewrite Hzero.
      * discriminate.
      * intros _ _. rewrite logged_app. cbn. apply app_nil_r.
  - split; [eauto | ]. split; [reflexivity | ].
    split; [discriminate | ]. split.
    + intros ? [= <-]. now rewrite logged_app.
    + discriminate.
Qed.

Lemma getAppleMusicRating_never_throws_witness :
  fst (AppleMusic.getAppleMusicRating Examples.bridgeFails
         Examples.client Examples.comeTogether []) = Ok 0%Q /\
  logged (snd (AppleMusic.getAppleMusicRating Examples.bridgeFails
                 Examples.client Examples.comeTogether [])) =
    [Reader.failureEntry (AppleMusic.appleLogger Examples.client)
       (Rejected "osascript: execution error")] /\
  fst (AppleMusic.getAppleMusicRating (Examples.bridgePrints "0")
         Examples.client Examples.comeTogether []) = Ok 0%Q /\
  logged (snd (AppleMusic.getAppleMusicRating (Examples.bridgePrints "0")
                 Examples.client Examples.comeTogether [])) = [].
Proof.
  pose proof (getAppleMusicRating_never_throws Examples.bridgeFails
                Examples.client Examples.comeTogether []) as Hfails.
  pose proof (getAppleMusicRating_never_throws (Examples.bridgePrints "0")
                Examples.client Examples.comeTogether []) as Hzero.
  cbv zeta in Hfails, Hzero.
  destruct Hfails as [_ [Hfailed [_ [Hlogged _]]]].
  destruct Hzero as [_ [_ [Hunrated [_ Hquiet]]]].
  split; [ | split; [ | split ] ].
  - apply Hfailed. exact I.
  - apply (Hlogged (Rejected "osascript: execution error")). reflexivity.
  - apply (Hunrated "0"); reflexivity.
  - apply (Hquiet "0"). reflexivity.
Defined.

(** ** The decision table *)

Lemma gtb_reflect (x : Q) : reflect (0 < x)%Q (gtb x 0).
Proof.
  unfold gtb. destruct (Qle_bool x 0) eqn:E; simpl; constructor.
  - apply Qle_bool_iff in E. lra.
  - apply Qnot_le_lt. intro Hle. apply Qle_bool_iff in Hle. congruence.
Qed.

Lemma eqb_reflect (x y : Q) : reflect (x == y)%Q (eqb x y).
Proof.
  unfold eqb. destruct (Qeq_bool x y) eqn:E; constructor.
  - now apply Qeq_bool_iff.
  - now apply Qeq_bool_neq.
Qed.

(** Case analysis on the tests of the [if] chain, each with its reading. *)
Ltac chain_cases overriding our their :=
  unfold decide;
  destruct overriding;
  destruct (gtb_reflect our);
  destruct (eqb_reflect their 0);
  destruct (eqb_reflect their our);
  destruct (eqb_reflect our 0);
  cbn [negb andb].

Ltac use_rows_above H :=
  pose proof (H Row1) as ?Above1; pose proof (H Row2) as ?Above2;
  pose proof (H Row3) as ?Above3; pose proof (H Row4) as ?Above4;
  clear H; cbn [position condition] in *;
  repeat match goal with
         | A : (?a < ?b)%nat -> _ |- _ =>
             first [ specialize (A ltac:(lia)) | clear A ]
         end.

(** The code takes the branch of the row that applies. *)
Lemma applies_decide (row : Row) (overriding : bool) (our their : Q) :
  applies row overriding our their ->
  decide overriding our their = branchOf row.
Proof.
  intros [Hcond Habove].
  destruct row; use_rows_above Habove; cbn [condition branchOf] in *;
    chain_cases overriding our their;
    try reflexivity; exfalso;
    intuition (try congruence; try lra).
Qed.

(** Conversely, the row of the branch the code takes applies. *)
Lemma decide_applies (row : Row) (overriding : bool) (our their : Q) :
  decide overriding our their = branchOf row ->
  applies row overriding our their.
Proof.
  intro Hdecide. split.
  - revert Hdecide. destruct row; cbn [condition branchOf];
      chain_cases overriding our their; intros; try discriminate;
      intuition (try congruence; try lra).
  - intros above Hpos Hcond. revert Hdecide.
    destruct row, above; cbn [position] in Hpos; try lia;
      cbn [condition branchOf] in *;
      chain_cases overriding our their; intros; try discriminate;
      intuition (try congruence; try lra).
Qed.

Lemma decide_reachable (overriding : bool) (our their : Q) :
  (0 <= our)%Q -> decide overriding our their <> Unknown.
Proof.
  intro Hour. chain_cases overriding our their; try discriminate.
  exfalso. lra.
Qed.

Lemma branchOf_inj (r r' : Row) : branchOf r = branchOf r' -> r = r'.
Proof. destruct r, r'; simpl; congruence. Qed.

Lemma decide_row (overriding : bool) (our their : Q) :
  decide overriding our their <> Unknown ->
  exists row, decide overriding our their = branchOf row.
Proof.
  destruct (decide overriding our their) eqn:E; intro H;
    [ exists Row1 | exists Row2 | exists Row3 | exists Row4 | exists Row5
    | congruence ]; reflexivity.
Qed.

(** ** One iteration of the track loop *)

Section TrackLoop.

Variable world : World.
Variable logger : Pino.Logger.
Variable options : Ratesync.RatesyncOptions.
Variable appleMusicClient : AppleMusic.AppleMusicClient.
Variable album : AlbumEntry.
Variable track : TrackEntry.

Let overriding := Ratesync.overrideExisting options.
Let ourRating := rating track.

(** The iteration does what the branch [decide] names does: the reader is
    asked unless the first test already decided, then the branch logs and,
    for the two writing branches outside a dry run, calls
    [setTrackRating]. *)
Lemma trackBody_decide (tr : list Event) :
  let theirRating := Engine.theirRatingAt world logger album track tr in
  let branch := decide overriding ourRating theirRating in
  Ratesync.trackBody world logger options appleMusicClient album track tr =
    (Engine.branchResult branch,
     (tr ++
      match branch with
      | SkipExisting =>
          [Engine.entry LTrace (Engine.trackLogger logger album track) []
             "initialized logger"]
      | _ =>
          Engine.beforeLookup logger album track ++
          Engine.lookupEvents world appleMusicClient logger album track tr
      end ++
      Engine.branchEvents branch logger (Ratesync.dryRun options)
        album track theirRating)%list).
Proof.
  cbv zeta.
  unfold Ratesync.trackBody, decide, Engine.theirRatingAt,
    Engine.lookupEvents, overriding, ourRating.
  unfold bind at 1. unfold Pino.log at 1. unfold emit at 1.
  fold (Engine.trackLogger logger album track).
  fold (Engine.filtersFor album track).
  destruct (negb (Ratesync.overrideExisting options) && gtb (rating track) 0).
  - unfold Pino.log, emit, Engine.branchEvents, Engine.branchResult,
      Engine.entry.
    now rewrite <- app_assoc.
  - unfold bind at 1. unfold Pino.log at 1. unfold emit at 1.
    unfold bind at 1. rewrite getAppleMusicRating_run. cbv zeta.
    replace ((tr ++ [ELog (mkLog LTrace
               (Engine.trackLogger logger album track ++ []) "initialized logger")]) ++
             [ELog (mkLog LDebug
               (Engine.trackLogger logger album track ++ [])
               "getting Apple Music rating...")])%list
      with (tr ++ Engine.beforeLookup logger album track)%list
      by (unfold Engine.beforeLookup, Engine.entry; now rewrite <- app_assoc).
    set (outcome := appleScript world _ _).
    set (their := Reader.ratingOf outcome).
    set (asked := match outcome with Ok _ => [] | Err e => _ end).
    destruct (eqb their 0);
      [ | destruct (eqb their (rating track));
          [ | destruct (eqb (rating track) 0);
              [ | destruct (Ratesync.overrideExisting options) ] ] ];
      unfold bind, Pino.log, emit, throw, when, Ratesync.callWithoutAwait,
        Engine.branchEvents, Engine.branchResult, Engine.entry;
      try destruct (Ratesync.dryRun options); cbn [negb];
      unfold ret, emit;
      repeat rewrite <- app_assoc; cbn [app];
      rewrite ?app_nil_r; reflexivity.
Qed.

End TrackLoop.

(** C1: for ratings that are not negative, exactly one row of the decision
    table applies under first-match-wins, the code takes the branch of that
    row, and the final [throw new Error("Unknown error")] is not reached:
    the iteration of the track loop ends normally. *)
Theorem decision_table_total (overriding : bool) (our their : Q) :
  (0 <= our)%Q -> (0 <= their)%Q ->
  (exists! row, applies row overriding our their) /\
  (forall row, applies row overriding our their ->
               decide overriding our their = branchOf row) /\
  decide overriding our their <> Unknown /\
  (forall world logger options appleMusicClient album track tr,
     Ratesync.overrideExisting options = overriding ->
     rating track = our ->
     Engine.theirRatingAt world logger album track tr = their ->
     fst (Ratesync.trackBody world logger options appleMusicClient
            album track tr) = Ok tt).
Proof.
  intros Hour _.
  pose proof (decide_reachable overriding our their Hour) as Hreach.
  destruct (decide_row _ _ _ Hreach) as [row Hrow].
  split; [ | split; [ | split ] ].
  - exists row. split.
    + now apply decide_applies.
    + intros row' Happ. apply applies_decide in Happ.
      apply branchOf_inj. congruence.
  - intros row'. apply applies_decide.
  - exact Hreach.
  - intros world logger options appleMusicClient album track tr Ho Hr Ht.
    rewrite trackBody_decide. cbv zeta. cbn [fst].
    rewrite Ho, Hr, Ht.
    destruct (decide overriding our their); try reflexivity; congruence.
Qed.

Lemma decision_table_total_witness :
  (exists! row, applies row true 3 5) /\
  (forall row, applies row true 3 5 -> decide true 3 5 = branchOf row) /\
  decide true 3 5 <> Unknown /\
  (forall world logger options appleMusicClient album track tr,
     Ratesync.overrideExisting options = true ->
     rating track = 3%Q ->
     Engine.theirRatingAt world logger album track tr = 5%Q ->
     fst (Ratesync.trackBody world logger options appleMusicClient
            album track tr) = Ok tt).
Proof.
  apply (decision_table_total true 3 5); unfold Qle; simpl; lia.
Defined.

(** A writing row applies exactly when the code takes a writing branch. *)
Lemma write_row_decide (overriding : bool) (our their : Q) :
  (exists row, writes row /\ applies row overriding our their) <->
  (decide overriding our their = SetRating \/
   decide overriding our their = Overwrite).
Proof.
  split.
  - intros [row [[-> | ->] Happ]]; apply applies_decide in Happ; auto.
  - intros [H | H].
    + exists Row4. split; [now left | now apply decide_applies].
    + exists Row5. split; [now right | now apply decide_applies].
Qed.

Lemma write_row_conditions (overriding : bool) (our their : Q) :
  (decide overriding our their = SetRating \/
   decide overriding our their = Overwrite) <->
  (~ their == 0 /\ ~ their == our /\ (our == 0 \/ overriding = true))%Q.
Proof.
  chain_cases overriding our their;
    intuition (try discriminate; try congruence; try lra).
Qed.

(** The decision is logged: whatever the dry-run flag, the last entry an
    iteration logs is the entry of the row that applies, with its level,
    both ratings (the candidate is [null] for row 1) and its message. *)
Lemma decision_is_logged
    (world : World) (logger : Pino.Logger) (options : Ratesync.RatesyncOptions)
    (appleMusicClient : AppleMusic.AppleMusicClient)
    (album : AlbumEntry) (track : TrackEntry) (tr : list Event) (row : Row) :
  applies row (Ratesync.overrideExisting options) (rating track)
    (Engine.theirRatingAt world logger album track tr) ->
  exists before,
    logged (snd (Ratesync.trackBody world logger options appleMusicClient
                   album track tr)) =
      (logged tr ++ before ++
       [Engine.decisionEntry row logger album track
          (Engine.theirRatingAt world logger album track tr)])%list.
Proof.
  intro Happlies. apply applies_decide in Happlies.
  rewrite trackBody_decide. cbv zeta. cbn [snd]. rewrite Happlies.
  destruct row; cbn [branchOf Engine.branchEvents];
    rewrite !logged_app; destruct (Ratesync.dryRun options);
    eexists; reflexivity.
Qed.

Lemma and_eighth (A B C D E F G H : Prop) :
  A /\ B /\ C /\ D /\ E /\ F /\ G -> H ->
  A /\ B /\ C /\ D /\ E /\ F /\ G /\ H.
Proof. tauto. Qed.

(** C5: in an iteration of the track loop [setTrackRating] is called exactly
    when a writing row of the table applies (the candidate is rated and
    differs, and the remote rating is 0 or overriding is on) and dry-run is
    off; it is called once, for this track, with [theirRating].  In a dry
    run the iteration asks the reader, logs and ends as it does without it,
    and makes no call.  With or without dry-run, the last entry it logs is
    the decision: the entry of the row that applies ("setting rating..."
    for row 4, "overwriting rating..." for row 5) with both ratings. *)
Theorem writes_follow_the_table
    (world : World) (logger : Pino.Logger) (options : Ratesync.RatesyncOptions)
    (appleMusicClient : AppleMusic.AppleMusicClient)
    (album : AlbumEntry) (track : TrackEntry) (tr : list Event) :
  let our := rating track in
  let their := Engine.theirRatingAt world logger album track tr in
  let overriding := Ratesync.overrideExisting options in
  let iteration o :=
    Ratesync.trackBody world logger o appleMusicClient album track tr in
  let writeRow := exists row, writes row /\ applies row overriding our their in
  (writeRow /\ Ratesync.dryRun options = false ->
     ratingCalls (snd (iteration options)) =
       (ratingCalls tr ++ [(TrackByKey (trackKey track), their)])%list) /\
  (~ (writeRow /\ Ratesync.dryRun options = false) ->
     ratingCalls (snd (iteration options)) = ratingCalls tr) /\
  (writeRow <->
     (~ their == 0 /\ ~ their == our /\ (our == 0 \/ overriding = true))%Q) /\
  ratingCalls (snd (iteration (Engine.withDryRun true options))) = ratingCalls tr /\
  logged (snd (iteration (Engine.withDryRun true options))) =
    logged (snd (iteration (Engine.withDryRun false options))) /\
  scriptsRun (snd (iteration (Engine.withDryRun true options))) =
    scriptsRun (snd (iteration (Engine.withDryRun false options))) /\
  fst (iteration (Engine.withDryRun true options)) =
    fst (iteration (Engine.withDryRun false options)) /\
  (forall row dry,
     applies row overriding our their ->
     exists before,
       logged (snd (iteration (Engine.withDryRun dry options))) =
         (logged tr ++ before ++
          [Engine.decisionEntry row logger album track their])%list).
Proof.
  cbv zeta. apply and_eighth;
    [ | intros row dry Happlies;
        now apply (decision_is_logged world logger
                     (Engine.withDryRun dry options)) ].
  rewrite write_row_decide, !trackBody_decide. cbv zeta. cbn [fst snd].
  change (Ratesync.overrideExisting (Engine.withDryRun true options))
    with (Ratesync.overrideExisting options).
  change (Ratesync.overrideExisting (Engine.withDryRun false options))
    with (Ratesync.overrideExisting options).
  change (Ratesync.dryRun (Engine.withDryRun true options)) with true.
  change (Ratesync.dryRun (Engine.withDryRun false options)) with false.
  set (their := Engine.theirRatingAt world logger album track tr).
  set (branch := decide (Ratesync.overrideExisting options) (rating track) their).
  pose proof (write_row_conditions (Ratesync.overrideExisting options)
                (rating track) their) as Hconditions.
  fold branch in Hconditions.
  unfold Engine.lookupEvents, Engine.beforeLookup, Engine.branchEvents,
    Engine.entry.
  rewrite !ratingCalls_app, !logged_app, !scriptsRun_app.
  split; [ | split; [ | split; [exact Hconditions | ] ] ].
  - intros [Hwrite Hdry]. rewrite Hdry.
    destruct Hwrite as [-> | ->];
      destruct (appleScript world _ _); reflexivity.
  - intros Hnot.
    destruct (Ratesync.dryRun options);
      destruct branch; try destruct (appleScript world _ _);
      cbn; rewrite ?app_nil_r; try reflexivity;
      exfalso; apply Hnot; auto.
  - destruct branch; try destruct (appleScript world _ _);
      cbn; rewrite ?app_nil_r; repeat split; reflexivity.
Qed.

Lemma writes_follow_the_table_witness :
  ratingCalls
    (snd (Ratesync.trackBody (Examples.bridgePrints "80") []
            (Examples.options false false) Examples.client
            Examples.abbeyRoad (Examples.trackRated 0) []))
    = [(TrackByKey "200", 8%Q)] /\
  ratingCalls
    (snd (Ratesync.trackBody (Examples.bridgePrints "80") []
            (Examples.options true false) Examples.client
            Examples.abbeyRoad (Examples.trackRated 0) []))
    = [] /\
  exists before,
    logged
      (snd (Ratesync.trackBody (Examples.bridgePrints "80") []
              (Examples.options true false) Examples.client
              Examples.abbeyRoad (Examples.trackRated 0) []))
      = (before ++
         [mkLog LInfo
            [ ("artist", JStr "The Beatles"); ("album", JStr "Abbey Road");
              ("track", JStr "Come Together");
              ("ourRating", JNum 0); ("theirRating", JNum 8) ]
            "setting rating..."])%list.
Proof.
  split; [ | split ].
  - apply (proj1 (writes_follow_the_table (Examples.bridgePrints "80") []
                    (Examples.options false false) Examples.client
                    Examples.abbeyRoad (Examples.trackRated 0) [])).
    split; [ | reflexivity ].
    exists Row4. split; [now left | ].
    apply decide_applies. reflexivity.
  - apply (proj1 (proj2 (writes_follow_the_table
                    (Examples.bridgePrints "80") []
                    (Examples.options true false) Examples.client
                    Examples.abbeyRoad (Examples.trackRated 0) []))).
    intros [_ Hdry]. discriminate Hdry.
  - assert (Happlies :
      applies Row4 false 0
        (Engine.theirRatingAt (Examples.bridgePrints "80") []
           Examples.abbeyRoad (Examples.trackRated 0) []))
      by (apply decide_applies; reflexivity).
    destruct (proj2 (proj2 (proj2 (proj2 (proj2 (proj2 (proj2
                (writes_follow_the_table (Examples.bridgePrints "80") []
                   (Examples.options true false) Examples.client
                   Examples.abbeyRoad (Examples.trackRated 0) [])))))))
                Row4 true Happlies) as [before Hlogged].
    exists before. exact Hlogged.
Defined.

(** C9, as stated, fails: with overriding off, a track that already has the
    remote rating 3 is visited and skipped by the first test, and the Local
    Rating Reader is never asked (the entry logs [theirRating: null]). *)
Lemma rated_track_is_not_looked_up :
  let visit :=
    Ratesync.trackBody (Examples.bridgePrints "80") []
      (Examples.options false false) Examples.client
      Examples.abbeyRoad (Examples.trackRated 3) [] in
  fst visit = Ok tt /\
  scriptsRun (snd visit) = [] /\
  logged (snd visit) =
    [ mkLog LTrace
        [ ("artist", JStr "The Beatles"); ("album", JStr "Abbey Road");
          ("track", JStr "Come Together") ]
        "initialized logger";
      mkLog LInfo
        [ ("artist", JStr "The Beatles"); ("album", JStr "Abbey Road");
          ("track", JStr "Come Together");
          ("ourRating", JNum 3); ("theirRating", JNull) ]
        "skipping track with existing rating..." ].
Proof. cbv zeta. repeat split. Qed.

(** C9, amended: an iteration of the track loop reads the remote rating and
    applies row 1 first.  When row 1 applies (overriding is off and the
    track is rated) the reader is not asked.  Otherwise the reader is asked
    exactly once, for this track's artist and name, before anything is
    decided: what rows 2-5 log and call comes after the reader's answer. *)
Theorem reader_asked_after_row1
    (world : World) (logger : Pino.Logger) (options : Ratesync.RatesyncOptions)
    (appleMusicClient : AppleMusic.AppleMusicClient)
    (album : AlbumEntry) (track : TrackEntry) (tr : list Event) :
  let our := rating track in
  let their := Engine.theirRatingAt world logger album track tr in
  let overriding := Ratesync.overrideExisting options in
  let after :=
    snd (Ratesync.trackBody world logger options appleMusicClient
           album track tr) in
  let source := AppleMusic.script (Engine.filtersFor album track) in
  (applies Row1 overriding our their -> scriptsRun after = scriptsRun tr) /\
  (~ applies Row1 overriding our their ->
     scriptsRun after = (scriptsRun tr ++ [source])%list /\
     after =
       (tr ++ Engine.beforeLookup logger album track ++
        Engine.lookupEvents world appleMusicClient logger album track tr ++
        Engine.branchEvents (decide overriding our their) logger
          (Ratesync.dryRun options) album track their)%list) /\
  (applies Row1 overriding our their <->
     overriding = false /\ (0 < our)%Q).
Proof.
  cbv zeta. rewrite trackBody_decide. cbv zeta. cbn [snd].
  set (their := Engine.theirRatingAt world logger album track tr).
  set (branch := decide (Ratesync.overrideExisting options) (rating track) their).
  assert (Hrow1 : applies Row1 (Ratesync.overrideExisting options)
                    (rating track) their <-> branch = SkipExisting).
  { split; [apply applies_decide | apply (decide_applies Row1)]. }
  split; [ | split ].
  - intros Happ. apply Hrow1 in Happ. rewrite Happ.
    rewrite !scriptsRun_app. cbn. now rewrite app_nil_r.
  - intros Hnot. rewrite Hrow1 in Hnot.
    assert (Hasked :
      scriptsRun (Engine.lookupEvents world appleMusicClient logger album track tr)
        = [AppleMusic.script (Engine.filtersFor album track)]).
    { unfold Engine.lookupEvents. now destruct (appleScript world _ _). }
    assert (Hbranch : forall dry,
      scriptsRun (Engine.branchEvents branch logger dry album track their) = []).
    { intros dry. destruct branch, dry; reflexivity. }
    destruct branch eqn:E; try congruence;
      rewrite <- ?app_assoc; (split; [ | reflexivity ]);
      rewrite !scriptsRun_app, Hasked, Hbranch; cbn;
      rewrite ?app_nil_r; reflexivity.
  - rewrite Hrow1. unfold branch, decide.
    destruct (Ratesync.overrideExisting options);
      destruct (gtb_reflect (rating track));
      destruct (eqb their 0), (eqb their (rating track)),
        (eqb (rating track) 0); cbn [negb andb];
      intuition (try discriminate; try congruence).
Qed.

Lemma reader_asked_after_row1_witness :
  scriptsRun
    (snd (Ratesync.trackBody (Examples.bridgePrints "80") []
            (Examples.options false true) Examples.client
            Examples.abbeyRoad (Examples.trackRated 3) []))
    = [AppleMusic.script Examples.comeTogether] /\
  scriptsRun
    (snd (Ratesync.trackBody (Examples.bridgePrints "80") []
            (Examples.options false false) Examples.client
            Examples.abbeyRoad (Examples.trackRated 3) []))
    = [].
Proof.
  split.
  - refine (proj1 (proj1 (proj2 (reader_asked_after_row1
             (Examples.bridgePrints "80") []
             (Examples.options false true) Examples.client
             Examples.abbeyRoad (Examples.trackRated 3) [])) _)).
    intros [[Hoff _] _]. discriminate Hoff.
  - refine (proj1 (reader_asked_after_row1
             (Examples.bridgePrints "80") []
             (Examples.options false false) Examples.client
             Examples.abbeyRoad (Examples.trackRated 3) []) _).
    apply decide_applies. reflexivity.
Defined.

(** ** The Plex client: [fetch] *)

Section FetchFacts.

Variable world : World.
Variable self : Plex.PlexClient.

(** How [fetch] starts: the request is validated, the token is set as a
    header, the URL is built, and only then is the request sent. *)
Lemma fetch_start (endpoint : Endpoint) (url : list (string * value))
    (tr : list Event) :
  Plex.fetch world self endpoint url tr =
    if Client.validRequest endpoint url then
      if Headers_accepts world (Plex.authToken self) then
        if URL_canParse world (Plex.baseUrl self) then
          (response <- Plex.globalFetch world
                         (Client.requestFor self endpoint url) ;;
           if negb (ok response) then
             Pino.log LError (Plex.plexLogger self)
               [ ("body", JStr (text response));
                 ("status", JNum (inject_Z (status response)));
                 ("statusText", JStr (statusText response)) ]
               "fetch failed" ;;
             throw PlexFetchError
           else
             body <- match Client.contentLength response with
                     | Some 0%Z => ret JNull
                     | _ => Plex.responseJson response
                     end ;;
             Pino.log LDebug (Plex.plexLogger self) [("body", body)]
               "validating response" ;;
             Plex.Value_Assert
               (Plex.responseSchema (Plex.EndpointConfig endpoint)) body ;;
             ret body) tr
        else (Err (TypeError "Invalid URL"), tr)
      else (Err (TypeError "Invalid header value"), tr)
    else (Err AssertError, tr).
Proof.
  unfold Plex.fetch, Client.validRequest, Plex.Value_Assert.
  unfold bind at 1.
  destruct (Value_Check _ _); [ | reflexivity ].
  unfold ret at 1. unfold bind at 1. unfold Plex.headersSet.
  destruct (Headers_accepts world _); [ | reflexivity ].
  unfold ret at 1. unfold bind at 1. unfold Plex.newURL.
  destruct (URL_canParse world _); reflexivity.
Qed.

(** A request is sent exactly once when it passes its schema and the
    platform accepts the token and the base URL, and not at all otherwise;
    this does not depend on what comes back. *)
Lemma fetch_requests (endpoint : Endpoint) (url : list (string * value))
    (tr : list Event) :
  requestsSent (snd (Plex.fetch world self endpoint url tr)) =
    (requestsSent tr ++
     if Client.validRequest endpoint url && Client.canSend world self
     then [Client.requestFor self endpoint url] else [])%list.
Proof.
  rewrite fetch_start. unfold Client.canSend.
  destruct (Client.validRequest endpoint url);
    [ | cbn; now rewrite app_nil_r ].
  destruct (Headers_accepts world _); [ | cbn; now rewrite app_nil_r ].
  destruct (URL_canParse world _); [ | cbn; now rewrite app_nil_r ].
  cbn [andb].
  unfold bind at 1. unfold Plex.globalFetch, perform.
  destruct (http world tr _) as [response | e];
    [ | cbn [snd]; rewrite requestsSent_app; reflexivity ].
  destruct (ok response); cbn [negb].
  - unfold bind at 1.
    destruct (match Client.contentLength response with
              | Some 0%Z => ret JNull
              | _ => _
              end _) as [[body | e] tr1] eqn:Hbody.
    + assert (tr1 = (tr ++ [EFetch (Client.requestFor self endpoint url)])%list)
        as ->.
      { revert Hbody.
        destruct (Client.contentLength response) as [[ | ? | ? ] | ];
          unfold ret, Plex.responseJson;
          destruct (json response); unfold ret, throw; congruence. }
      unfold bind, Pino.log, emit, Plex.Value_Assert.
      destruct (Value_Check _ body); unfold ret, throw; cbn [snd];
        rewrite !requestsSent_app; cbn; now rewrite app_nil_r.
    + assert (tr1 = (tr ++ [EFetch (Client.requestFor self endpoint url)])%list)
        as ->.
      { revert Hbody.
        destruct (Client.contentLength response) as [[ | ? | ? ] | ];
          unfold ret, Plex.responseJson;
          destruct (json response); unfold ret, throw; congruence. }
      cbn [snd]. rewrite requestsSent_app. reflexivity.
  - unfold bind, Pino.log, emit, throw. cbn [snd].
    rewrite !requestsSent_app. cbn. now rewrite app_nil_r.
Qed.

(** A successful response whose [Content-Length] is 0: the body is [null],
    [response.json()] is not called, and [null] is validated like any
    other body. *)
Lemma fetch_empty (endpoint : Endpoint) (url : list (string * value))
    (tr : list Event) (response : Response) :
  Client.validRequest endpoint url = true ->
  Client.canSend world self = true ->
  http world tr (Client.requestFor self endpoint url) = Ok response ->
  ok response = true ->
  Client.contentLength response = Some 0%Z ->
  Plex.fetch world self endpoint url tr =
    ((if Value_Check (Plex.responseSchema (Plex.EndpointConfig endpoint)) JNull
      then Ok JNull else Err AssertError),
     (tr ++ [EFetch (Client.requestFor self endpoint url);
             Client.debugBody self JNull])%list).
Proof.
  unfold Client.canSend.
  intros Hvalid [Htoken Hbase]%andb_true_iff Hhttp Hok Hlength.
  rewrite fetch_start, Hvalid, Htoken, Hbase.
  unfold bind at 1. unfold Plex.globalFetch, perform.
  rewrite Hhttp, Hok. cbn [negb]. rewrite Hlength.
  unfold bind, ret, Pino.log, emit, throw, Client.debugBody,
    Plex.Value_Assert.
  destruct (Value_Check _ JNull); now rewrite <- app_assoc.
Qed.

(** A successful response with a body that parses is returned as it is
    when it has the shape the endpoint declares, and rejected by
    [Value.Assert] otherwise. *)
Lemma fetch_body (endpoint : Endpoint) (url : list (string * value))
    (tr : list Event) (response : Response) (payload : value) :
  Client.validRequest endpoint url = true ->
  Client.canSend world self = true ->
  http world tr (Client.requestFor self endpoint url) = Ok response ->
  ok response = true ->
  Client.contentLength response <> Some 0%Z ->
  json response = Some payload ->
  Plex.fetch world self endpoint url tr =
    ((if Value_Check (Plex.responseSchema (Plex.EndpointConfig endpoint)) payload
      then Ok payload else Err AssertError),
     (tr ++ [EFetch (Client.requestFor self endpoint url);
             Client.debugBody self payload])%list).
Proof.
  unfold Client.canSend.
  intros Hvalid [Htoken Hbase]%andb_true_iff Hhttp Hok Hlength Hjson.
  rewrite fetch_start, Hvalid, Htoken, Hbase.
  unfold bind at 1. unfold Plex.globalFetch, perform.
  rewrite Hhttp, Hok. cbn [negb].
  assert (Hread :
    (match Client.contentLength response with
     | Some 0%Z => ret JNull
     | _ => Plex.responseJson response
     end) = ret payload).
  { unfold Plex.responseJson. rewrite Hjson.
    destruct (Client.contentLength response) as [[ | ? | ? ] | ]; congruence. }
  rewrite Hread.
  unfold bind, ret, throw, Pino.log, emit, Client.debugBody, Plex.Value_Assert.
  destruct (Value_Check _ payload); now rewrite <- app_assoc.
Qed.

End FetchFacts.

(** ** The Plex client: the operations *)

(** Unfolds an operation down to its call of [fetch]. *)
Ltac to_fetch :=
  cbv [Plex.listArtists Plex.listAlbums Plex.listAlbumTracks
       Plex.listArtistAlbums Plex.setTrackRating
       Plex.getSectionKey Plex.getAlbumKey Plex.getArtistKey Plex.getTrackKey
       bind ret throw Pino.log emit].

(** C4, as stated, fails for the listing operations: the server answers
    200 with [Content-Length: 0], the body becomes [null], [null] is
    validated against the listing schema, and the operation raises. *)
Lemma empty_body_fails_listing :
  Client.contentLength Examples.emptyResponse = Some 0%Z /\
  fst (Plex.listAlbums (Examples.serverReplies Examples.emptyResponse)
         Examples.plex (SectionByKey "3") []) = Err AssertError /\
  fst (Plex.fetch (Examples.serverReplies Examples.emptyResponse)
         Examples.plex LIBRARY_SECTION_GET_ALL
         (Client.sectionUrl "3" Plex.SearchType_album) []) = Err AssertError.
Proof. repeat split. Qed.

(** C4, amended: a successful response whose Content-Length is 0 is read as
    the body [null] without parsing; the body is still validated against
    the response shape of the operation.  [setTrackRating], whose response
    shape accepts any value, returns normally; the four listing operations
    raise the validation error. *)
Theorem empty_body_is_validated
    (world : World) (self : Plex.PlexClient) (response : Response) :
  Client.canSend world self = true ->
  (forall tr request, http world tr request = Ok response) ->
  ok response = true ->
  Client.contentLength response = Some 0%Z ->
  (forall key rating tr,
     (0 <= rating)%Q -> (rating <= 10)%Q ->
     fst (Plex.setTrackRating world self (TrackByKey key) rating tr) = Ok tt) /\
  (forall endpoint url tr,
     Client.validRequest endpoint url = true ->
     fst (Plex.fetch world self endpoint url tr) =
       match endpoint with
       | ENTITY_RATING_UPDATE => Ok JNull
       | _ => Err AssertError
       end) /\
  (forall key tr,
     fst (Plex.listArtists world self (SectionByKey key) tr) = Err AssertError) /\
  (forall key tr,
     fst (Plex.listAlbums world self (SectionByKey key) tr) = Err AssertError) /\
  (forall key tr,
     fst (Plex.listAlbumTracks world self (AlbumByKey key) tr) = Err AssertError) /\
  (forall key tr,
     fst (Plex.listArtistAlbums world self (ArtistByKey key) tr) = Err AssertError).
Proof.
  intros Hsend Hhttp Hok Hempty.
  assert (Hfetch : forall endpoint url tr,
    Client.validRequest endpoint url = true ->
    Plex.fetch world self endpoint url tr =
      ((if Value_Check (Plex.responseSchema (Plex.EndpointConfig endpoint)) JNull
        then Ok JNull else Err AssertError),
       (tr ++ [EFetch (Client.requestFor self endpoint url);
               Client.debugBody self JNull])%list)).
  { intros. now apply fetch_empty with (response := response). }
  split; [ | split; [ | repeat split ] ].
  - intros key rating tr Hlow Hhigh. to_fetch.
    rewrite (Hfetch ENTITY_RATING_UPDATE (Client.rateUrl key rating)).
    + reflexivity.
    + cbn. apply Qle_bool_iff in Hlow, Hhigh. now rewrite Hlow, Hhigh.
  - intros endpoint url tr Hvalid. rewrite Hfetch by assumption.
    now destruct endpoint.
  - intros key tr. to_fetch.
    now rewrite (Hfetch LIBRARY_SECTION_GET_ALL (Client.artistsUrl key)).
  - intros key tr. to_fetch.
    now rewrite (Hfetch LIBRARY_SECTION_GET_ALL
                   (Client.sectionUrl key Plex.SearchType_album)).
  - intros key tr. to_fetch.
    now rewrite (Hfetch METADATA_GET_CHILDREN (Client.childrenUrl key)).
  - intros key tr. to_fetch.
    now rewrite (Hfetch METADATA_GET_CHILDREN (Client.childrenUrl key)).
Qed.

Lemma empty_body_is_validated_witness :
  fst (Plex.setTrackRating (Examples.serverReplies Examples.emptyResponse)
         Examples.plex (TrackByKey "200") 8 []) = Ok tt /\
  fst (Plex.listAlbumTracks (Examples.serverReplies Examples.emptyResponse)
         Examples.plex (AlbumByKey "101") []) = Err AssertError.
Proof.
  pose proof (empty_body_is_validated
                (Examples.serverReplies Examples.emptyResponse)
                Examples.plex Examples.emptyResponse
                eq_refl (fun _ _ => eq_refl) eq_refl eq_refl) as H.
  split.
  - apply (proj1 H); unfold Qle; simpl; lia.
  - apply (proj1 (proj2 (proj2 (proj2 (proj2 H))))).
Defined.

Section ListingFacts.

Variable world : World.
Variable self : Plex.PlexClient.

(** The callback throws at the first entry without a parent name, so the
    whole [map] does. *)
Lemma transformAlbum_missing (entries : list value) :
  (exists entry, In entry entries /\ get "parentTitle" entry = None) ->
  forall tr,
    fst (mapM (Plex.transformAlbum self) entries tr) = Err PlexResponseError.
Proof.
  induction entries as [ | entry rest IH]; intros [orphan [Hin Hnone]] tr.
  - destruct Hin.
  - cbn [mapM]. unfold bind at 1.
    unfold Plex.transformAlbum at 1. unfold bind at 1, Pino.log, emit.
    destruct (get "parentTitle" entry) eqn:Hparent.
    + unfold ret at 1. unfold bind at 1.
      destruct Hin as [-> | Hin]; [congruence | ].
      specialize (IH (ex_intro _ orphan (conj Hin Hnone))).
      match goal with
      | |- context [mapM _ rest ?t] =>
          specialize (IH t); destruct (mapM _ rest t) as [[ys | e] tr']
      end; cbn [fst] in *; congruence.
    + reflexivity.
Qed.

Lemma transformTrack_missing (entries : list value) :
  (exists entry, In entry entries /\ get "parentTitle" entry = None) ->
  forall tr,
    fst (mapM (Plex.transformTrack self) entries tr) = Err PlexResponseError.
Proof.
  induction entries as [ | entry rest IH]; intros [orphan [Hin Hnone]] tr.
  - destruct Hin.
  - cbn [mapM]. unfold bind at 1.
    unfold Plex.transformTrack at 1. unfold bind at 1, Pino.log, emit.
    destruct (get "parentTitle" entry) eqn:Hparent.
    + unfold ret at 1. unfold bind at 1.
      destruct Hin as [-> | Hin]; [congruence | ].
      specialize (IH (ex_intro _ orphan (conj Hin Hnone))).
      match goal with
      | |- context [mapM _ rest ?t] =>
          specialize (IH t); destruct (mapM _ rest t) as [[ys | e] tr']
      end; cbn [fst] in *; congruence.
    + reflexivity.
Qed.

(** C6: when a listing payload holds an entry without [parentTitle],
    [listAlbums], [listArtistAlbums] and [listAlbumTracks] raise an error
    about the shape of the response: [PlexResponseError], thrown by the
    callback, when the payload passes the validation of [fetch], and the
    error of that validation when it does not.  No entry is returned and no
    default stands in for the missing name. *)
Theorem missing_parent_raises
    (key : string) (response : Response) (payload : value) :
  Client.canSend world self = true ->
  ok response = true ->
  Client.contentLength response <> Some 0%Z ->
  json response = Some payload ->
  Client.lacksParent payload ->
  (Client.answers world
     (Client.requestFor self LIBRARY_SECTION_GET_ALL
        (Client.sectionUrl key Plex.SearchType_album)) response ->
   forall tr,
     fst (Plex.listAlbums world self (SectionByKey key) tr)
       = Client.raisedFor LIBRARY_SECTION_GET_ALL payload) /\
  (Client.answers world
     (Client.requestFor self METADATA_GET_CHILDREN (Client.childrenUrl key))
     response ->
   forall tr,
     fst (Plex.listArtistAlbums world self (ArtistByKey key) tr)
       = Client.raisedFor METADATA_GET_CHILDREN payload /\
     fst (Plex.listAlbumTracks world self (AlbumByKey key) tr)
       = Client.raisedFor METADATA_GET_CHILDREN payload).
Proof.
  intros Hsend Hok Hlength Hjson Hlacks. unfold Client.raisedFor. split.
  - intros Hanswers tr. to_fetch.
    rewrite (fetch_body world self LIBRARY_SECTION_GET_ALL
               (Client.sectionUrl key Plex.SearchType_album) _ response payload);
      auto.
    destruct (Value_Check _ payload); [ | reflexivity ].
    now apply transformAlbum_missing.
  - intros Hanswers tr. split; to_fetch;
      rewrite (fetch_body world self METADATA_GET_CHILDREN
                 (Client.childrenUrl key) _ response payload); auto;
      (destruct (Value_Check _ payload); [ | reflexivity ]).
    + now apply transformAlbum_missing.
    + now apply transformTrack_missing.
Qed.

End ListingFacts.

Lemma missing_parent_raises_witness :
  fst (Plex.listAlbums
         (Examples.serverReplies (Examples.jsonResponse Examples.orphanAlbums))
         Examples.plex (SectionByKey "3") []) = Err PlexResponseError /\
  fst (Plex.listAlbumTracks
         (Examples.serverReplies (Examples.jsonResponse Examples.orphanChildren))
         Examples.plex (AlbumByKey "101") []) = Err PlexResponseError.
Proof.
  split.
  - refine (proj1 (missing_parent_raises
              (Examples.serverReplies (Examples.jsonResponse Examples.orphanAlbums))
              Examples.plex "3" (Examples.jsonResponse Examples.orphanAlbums)
              Examples.orphanAlbums eq_refl eq_refl _ eq_refl _) _ []).
    + discriminate.
    + eexists. split; [left; reflexivity | reflexivity].
    + intro tr. reflexivity.
  - refine (proj2 (proj2 (missing_parent_raises
              (Examples.serverReplies (Examples.jsonResponse Examples.orphanChildren))
              Examples.plex "101" (Examples.jsonResponse Examples.orphanChildren)
              Examples.orphanChildren eq_refl eq_refl _ eq_refl _) _ [])).
    + discriminate.
    + eexists. split; [left; reflexivity | reflexivity].
    + intro tr. reflexivity.
Defined.

Section RatingFacts.

Variable world : World.
Variable self : Plex.PlexClient.

(** The shape declared for a children entry puts no bound on
    [userRating]: the object of a track passes with any number, and
    without one. *)
Lemma trackObject_shape (track : TrackEntry) (userRating : option Q) :
  Value_Check
    (Plex.responseSchema (Plex.EndpointConfig METADATA_GET_CHILDREN))
    (Client.container [Client.trackObject track userRating]) = true.
Proof. destruct userRating; reflexivity. Qed.

Lemma children_shape (raw : list (TrackEntry * option Q)) :
  Value_Check
    (Plex.responseSchema (Plex.EndpointConfig METADATA_GET_CHILDREN))
    (Client.container
       (map (fun r => Client.trackObject (fst r) (snd r)) raw)) = true.
Proof.
  induction raw as [ | [track userRating] rest IH]; [reflexivity | ].
  pose proof (trackObject_shape track userRating) as Hhead.
  cbn in Hhead, IH |- *.
  rewrite !andb_true_r in *. now rewrite Hhead, IH.
Qed.

Lemma transformTrack_objects (raw : list (TrackEntry * option Q)) :
  forall tr,
    fst (mapM (Plex.transformTrack self)
           (map (fun r => Client.trackObject (fst r) (snd r)) raw) tr)
      = Ok (map (fun r => Client.withRating (fst r) (snd r)) raw).
Proof.
  induction raw as [ | [track userRating] rest IH]; intro tr;
    [reflexivity | ].
  cbn [map mapM fst snd]. unfold bind at 1.
  assert (Hhead : forall t,
    Plex.transformTrack self (Client.trackObject track userRating) t =
      (Ok (Client.withRating track userRating),
       (t ++ [ELog (mkLog LDebug
                (Plex.plexLogger self ++
                 [("data", Client.trackObject track userRating)])
                "transforming track")])%list)).
  { intro t. destruct userRating; reflexivity. }
  rewrite Hhead. unfold bind at 1.
  match goal with
  | |- context [mapM _ _ ?t] =>
      specialize (IH t); destruct (mapM _ _ t) as [[ys | e] tr']
  end; cbn [fst] in *; [ | discriminate ].
  injection IH as ->. reflexivity.
Qed.

(** C10: [listAlbumTracks] returns, for every entry of the payload, the
    number found under [userRating] as the rating of the track, whatever
    the number (negative, fractional, above 5); the response shape accepts
    every number; an entry without [userRating] gets the rating 0. *)
Theorem userRating_is_not_checked
    (key : string) (response : Response)
    (raw : list (TrackEntry * option Q)) :
  Client.canSend world self = true ->
  Client.answers world
    (Client.requestFor self METADATA_GET_CHILDREN (Client.childrenUrl key))
    response ->
  ok response = true ->
  Client.contentLength response <> Some 0%Z ->
  json response =
    Some (Client.container
            (map (fun r => Client.trackObject (fst r) (snd r)) raw)) ->
  forall tr,
    fst (Plex.listAlbumTracks world self (AlbumByKey key) tr) =
      Ok (map (fun r => Client.withRating (fst r) (snd r)) raw) /\
    map rating (map (fun r => Client.withRating (fst r) (snd r)) raw) =
      map (fun r => match snd r with Some q => q | None => 0%Q end) raw.
Proof.
  intros Hsend Hanswers Hok Hlength Hjson tr. split.
  - to_fetch.
    rewrite (fetch_body world self METADATA_GET_CHILDREN
               (Client.childrenUrl key) _ response
               (Client.container
                  (map (fun r => Client.trackObject (fst r) (snd r)) raw)));
      auto.
    rewrite children_shape.
    apply transformTrack_objects.
  - rewrite map_map. reflexivity.
Qed.

End RatingFacts.

Lemma userRating_is_not_checked_witness :
  fst (Plex.listAlbumTracks
         (Examples.serverReplies
            (Examples.jsonResponse
               (Client.container
                  (map (fun r => Client.trackObject (fst r) (snd r))
                     Examples.oddRatings))))
         Examples.plex (AlbumByKey "101") []) =
    Ok [ Examples.trackRated (-3); Examples.trackRated (7 # 2);
         Examples.trackRated 11; Examples.trackRated 0 ].
Proof.
  refine (proj1 (userRating_is_not_checked
            (Examples.serverReplies
               (Examples.jsonResponse
                  (Client.container
                     (map (fun r => Client.trackObject (fst r) (snd r))
                        Examples.oddRatings))))
            Examples.plex "101" _ Examples.oddRatings
            eq_refl (fun _ => eq_refl) eq_refl _ eq_refl [])).
  discriminate.
Defined.

Section ReferenceFacts.

Variable world : World.
Variable self : Plex.PlexClient.

(** A [map] whose callback sends nothing sends nothing. *)
Lemma mapM_sends_nothing {A B : Type} (callback : A -> M B) :
  (forall x tr, requestsSent (snd (callback x tr)) = requestsSent tr) ->
  forall xs tr, requestsSent (snd (mapM callback xs tr)) = requestsSent tr.
Proof.
  intros Hcallback. induction xs as [ | x rest IH]; intro tr; [reflexivity | ].
  cbn [mapM]. unfold bind at 1.
  specialize (Hcallback x tr).
  destruct (callback x tr) as [[y | e] tr1]; cbn [snd] in *; [ | assumption ].
  unfold bind at 1. specialize (IH tr1).
  destruct (mapM callback rest tr1) as [[ys | e] tr2];
    unfold ret; cbn [snd] in *; congruence.
Qed.

Lemma transformAlbum_sends_nothing (album : value) (tr : list Event) :
  requestsSent (snd (Plex.transformAlbum self album tr)) = requestsSent tr.
Proof.
  unfold Plex.transformAlbum, bind, Pino.log, emit, ret, throw.
  destruct (get "parentTitle" album); cbn [snd];
    rewrite requestsSent_app; cbn; apply app_nil_r.
Qed.

Lemma transformTrack_sends_nothing (track : value) (tr : list Event) :
  requestsSent (snd (Plex.transformTrack self track tr)) = requestsSent tr.
Proof.
  unfold Plex.transformTrack, bind, Pino.log, emit, ret, throw.
  destruct (get "parentTitle" track); cbn [snd];
    rewrite requestsSent_app; cbn; apply app_nil_r.
Qed.

(** After [fetch], a listing operation only logs and transforms. *)
Ltac after_fetch endpoint :=
  to_fetch;
  let Hsent := fresh "Hsent" in
  match goal with
  | |- context [Plex.fetch world self endpoint ?u ?t] =>
      pose proof (fetch_requests world self endpoint u t) as Hsent;
      destruct (Plex.fetch world self endpoint u t) as [[? | ?] ?]
  end;
  cbn [snd] in *;
  rewrite ?mapM_sends_nothing
    by (try apply transformAlbum_sends_nothing;
        try apply transformTrack_sends_nothing;
        intros; cbn [snd]; rewrite requestsSent_app; cbn; apply app_nil_r);
  rewrite ?requestsSent_app in *;
  cbn [requestsSent flat_map app] in *;
  rewrite ?app_nil_r in *; exact Hsent.

(** C8: a reference by key resolves to the key itself, with no effect, and
    that key is the one put in the request (which is sent once the platform
    accepts the token and the base URL).  A reference by name makes the
    resolver throw [Error("Not implemented")]; the operation throws it in
    turn and has sent no request. *)
Theorem byName_is_not_implemented :
  (forall key tr,
     Plex.getSectionKey (SectionByKey key) tr = (Ok key, tr) /\
     Plex.getArtistKey (ArtistByKey key) tr = (Ok key, tr) /\
     Plex.getAlbumKey (AlbumByKey key) tr = (Ok key, tr) /\
     Plex.getTrackKey (TrackByKey key) tr = (Ok key, tr)) /\
  (forall name section artist album tr,
     Plex.getSectionKey (SectionByName name) tr
       = (Err (JsError "Not implemented"), tr) /\
     Plex.getArtistKey (ArtistByName name section) tr
       = (Err (JsError "Not implemented"), tr) /\
     Plex.getAlbumKey (AlbumByName artist name) tr
       = (Err (JsError "Not implemented"), tr) /\
     Plex.getTrackKey (TrackByName album name) tr
       = (Err (JsError "Not implemented"), tr)) /\
  (forall name section artist album rating tr,
     let notImplemented {A} (call : Result A * list Event) :=
       fst call = Err (JsError "Not implemented") /\
       requestsSent (snd call) = requestsSent tr in
     notImplemented (Plex.listArtists world self (SectionByName name) tr) /\
     notImplemented (Plex.listAlbums world self (SectionByName name) tr) /\
     notImplemented
       (Plex.listArtistAlbums world self (ArtistByName name section) tr) /\
     notImplemented
       (Plex.listAlbumTracks world self (AlbumByName artist name) tr) /\
     notImplemented
       (Plex.setTrackRating world self (TrackByName album name) rating tr)) /\
  (forall key rating tr,
     let sent {A} (call : Result A * list Event) (endpoint : Endpoint)
           (url : list (string * value)) :=
       requestsSent (snd call) =
         (requestsSent tr ++
          if Client.validRequest endpoint url && Client.canSend world self
          then [Client.requestFor self endpoint url] else [])%list in
     sent (Plex.listArtists world self (SectionByKey key) tr)
       LIBRARY_SECTION_GET_ALL (Client.artistsUrl key) /\
     sent (Plex.listAlbums world self (SectionByKey key) tr)
       LIBRARY_SECTION_GET_ALL (Client.sectionUrl key Plex.SearchType_album) /\
     sent (Plex.listArtistAlbums world self (ArtistByKey key) tr)
       METADATA_GET_CHILDREN (Client.childrenUrl key) /\
     sent (Plex.listAlbumTracks world self (AlbumByKey key) tr)
       METADATA_GET_CHILDREN (Client.childrenUrl key) /\
     sent (Plex.setTrackRating world self (TrackByKey key) rating tr)
       ENTITY_RATING_UPDATE (Client.rateUrl key rating) /\
     lookup "key" (requestVariables
                     (Client.requestFor self LIBRARY_SECTION_GET_ALL
                        (Client.artistsUrl key))) = Some (JStr key) /\
     lookup "key" (requestVariables
                     (Client.requestFor self LIBRARY_SECTION_GET_ALL
                        (Client.sectionUrl key Plex.SearchType_album)))
       = Some (JStr key) /\
     lookup "key" (requestVariables
                     (Client.requestFor self METADATA_GET_CHILDREN
                        (Client.childrenUrl key))) = Some (JStr key) /\
     lookup "key" (requestVariables
                     (Client.requestFor self ENTITY_RATING_UPDATE
                        (Client.rateUrl key rating))) = Some (JStr key)).
Proof.
  split; [ | split; [ | split ] ].
  - intros key tr. repeat split.
  - intros name section artist album tr. repeat split.
  - intros name section artist album rating tr. cbv zeta.
    repeat split; to_fetch; cbn [fst snd];
      rewrite ?requestsSent_app; cbn; rewrite ?app_nil_r; reflexivity.
  - intros key rating tr. cbv zeta.
    split; [ | split; [ | split; [ | split; [ | split; [ | repeat split ] ] ] ] ].
    + after_fetch LIBRARY_SECTION_GET_ALL.
    + after_fetch LIBRARY_SECTION_GET_ALL.
    + after_fetch METADATA_GET_CHILDREN.
    + after_fetch METADATA_GET_CHILDREN.
    + to_fetch.
      pose proof (fetch_requests world self ENTITY_RATING_UPDATE
                    (Client.rateUrl key rating) tr) as Hsent.
      change (Plex.fetch world self ENTITY_RATING_UPDATE
                (Client.rateUrl key rating) tr)
        with (Plex.fetch world self ENTITY_RATING_UPDATE
                [ ("identifier", JStr "com.plexapp.plugins.library");
                  ("key", JStr key); ("rating", JNum rating) ] tr) in Hsent.
      destruct (Plex.fetch world self ENTITY_RATING_UPDATE _ tr)
        as [[data | e] tr1]; exact Hsent.
Qed.

End ReferenceFacts.

(** ** The pass: what aborts it and what does not *)

Section PassFacts.

Variable world : World.
Variable logger : Pino.Logger.
Variable options : Ratesync.RatesyncOptions.

(** An iteration that throws ends the loop: the elements after it are not
    visited. *)
Lemma forOf_abort {A : Type} (body : A -> M unit)
    (visited : list A) (x : A) (rest : list A)
    (tr tr1 tr2 : list Event) (e : Exn) :
  forOf visited body tr = (Ok tt, tr1) ->
  body x tr1 = (Err e, tr2) ->
  forOf (visited ++ x :: rest) body tr = (Err e, tr2).
Proof.
  revert tr. induction visited as [ | v visited IH]; intros tr Hvisited Hx.
  - cbn in Hvisited. injection Hvisited as <-.
    cbn [app forOf]. unfold bind. now rewrite Hx.
  - cbn [app forOf] in *. unfold bind in *.
    destruct (body v tr) as [[[] | e'] tr']; [ | discriminate ].
    now apply IH.
Qed.

Lemma announce_ok (tr : list Event) :
  fst (Engine.announce logger options tr) = Ok tt.
Proof.
  unfold Engine.announce, when, bind, Pino.log, Ratesync.sleep, emit, ret.
  destruct (Ratesync.dryRun options), (Ratesync.overrideExisting options);
    reflexivity.
Qed.

(** [run] is the announcements, the [try] block, and the summary. *)
Lemma run_unfold (tr : list Event) :
  Ratesync.run world logger options tr =
    (Engine.announce logger options ;;
     startTime <- Ratesync.now world ;;
     tryCatch (Engine.tryBlock world logger options)
       (fun error =>
          Pino.logError LFatal logger error (exnMessage error) ;;
          throw error) ;;
     endTime <- Ratesync.now world ;;
     Pino.log LInfo logger
       [("durationMs", JNum (inject_Z (endTime - startTime)))]
       ("finished in " ++
        showInt (Math_round (inject_Z (endTime - startTime) / 1000)%Q) ++
        " sec")) tr.
Proof.
  unfold Ratesync.run, Engine.announce, Engine.tryBlock, bind.
  destruct (when (Ratesync.dryRun options) _ tr) as [[[] | e] tr1];
    reflexivity.
Qed.

(** Whatever the [try] block throws is logged at fatal level and thrown
    again: nothing follows the fatal entry, not even the summary. *)
Lemma run_fail_fast (tr tr' : list Event) (e : Exn) :
  Engine.tryBlock world logger options
    (snd (Engine.announce logger options tr)) = (Err e, tr') ->
  Ratesync.run world logger options tr =
    (Err e, (tr' ++ [Engine.fatalEntry logger e])%list).
Proof.
  intro Hblock. rewrite run_unfold.
  pose proof (announce_ok tr) as Hannounce.
  unfold bind at 1.
  destruct (Engine.announce logger options tr) as [[[] | e0] tr0];
    cbn [fst snd] in *; [ | discriminate ].
  unfold bind at 1. unfold Ratesync.now at 1.
  unfold bind at 1. unfold tryCatch. rewrite Hblock.
  reflexivity.
Qed.

(** X16: when the album listing fails, the pass throws the error of the
    listing; its last event is the fatal entry for that error, logged right
    after what the listing appended: no track is listed, no script is run
    and no summary is logged. *)
Lemma listAlbums_failure_aborts (tr tr' : list Event) (e : Exn) :
  let start :=
    (snd (Engine.announce logger options tr) ++
     [ Engine.entry LTrace logger [] "initialized Apple Music client";
       Engine.entry LTrace logger [] "initialized Plex API client";
       Engine.entry LDebug logger [] "loading albums list..." ])%list in
  Plex.listAlbums world (Engine.plexClientOf logger options)
    (SectionByKey "3") start = (Err e, tr') ->
  Ratesync.run world logger options tr =
    (Err e, (tr' ++ [Engine.fatalEntry logger e])%list).
Proof.
  cbv zeta. intro Hlist. apply run_fail_fast.
  unfold Engine.tryBlock.
  unfold bind at 1, Pino.log at 1, emit at 1.
  unfold bind at 1, Pino.log at 1, emit at 1.
  unfold bind at 1, Pino.log at 1, emit at 1.
  unfold bind at 1.
  unfold Engine.entry in Hlist. rewrite <- !app_assoc. cbn [app].
  now rewrite Hlist.
Qed.

(** A failure of the track listing of an album is a failure of the
    iteration for that album. *)
Lemma listAlbumTracks_failure_aborts
    (appleMusicClient : AppleMusic.AppleMusicClient)
    (plexClient : Plex.PlexClient) (album : AlbumEntry)
    (tr tr' : list Event) (e : Exn) :
  albumEntryName album <> "" ->
  Plex.listAlbumTracks world plexClient (AlbumByKey (albumKey album))
    (tr ++ [Engine.entry LDebug logger
              [("album", JStr (albumEntryName album))]
              "loading tracks list..."])%list = (Err e, tr') ->
  Ratesync.albumBody world logger options appleMusicClient plexClient
    album tr = (Err e, tr').
Proof.
  intros Hname Hlist. unfold Ratesync.albumBody.
  destruct (String.eqb_spec (albumEntryName album) ""); [contradiction | ].
  unfold bind at 1, Pino.log at 1, emit at 1. unfold bind at 1.
  unfold Engine.entry in Hlist. now rewrite Hlist.
Qed.

End PassFacts.

(** C3 does not hold for rating writes.  On a server that answers every
    rating update with status 500, [setTrackRating] rejects with
    [PlexFetchError] for the first track; the engine has dropped that
    promise, so the pass goes on to the second track, logs nothing at fatal
    level and returns normally.  On the same library, a failure of the
    track listing, which is awaited, is logged at fatal level and thrown to
    the caller. *)
Theorem failed_write_does_not_abort :
  let options := Examples.options false false in
  let pass := Ratesync.run Examples.ratingUpdatesFail [] options [] in
  let listing := Ratesync.run Examples.trackListingFails [] options [] in
  (forall tr,
     fst (Plex.setTrackRating Examples.ratingUpdatesFail
            (Engine.plexClientOf [] options) (TrackByKey "200") 8 tr)
       = Err PlexFetchError) /\
  fst pass = Ok tt /\
  ratingCalls (snd pass) = [(TrackByKey "200", 8%Q); (TrackByKey "201", 8%Q)] /\
  scriptsRun (snd pass) =
    [ AppleMusic.script
        (Engine.filtersFor Examples.abbeyRoad (Examples.trackRated 0));
      AppleMusic.script
        (Engine.filtersFor Examples.abbeyRoad
           (mkTrack "201" "Something" "Abbey Road" 0)) ] /\
  filter isFatal (logged (snd pass)) = [] /\
  fst listing = Err PlexFetchError /\
  filter isFatal (logged (snd listing)) =
    [mkLog LFatal [("err", Pino.errObject PlexFetchError)] "Failed to fetch"] /\
  scriptsRun (snd listing) = [].
Proof.
  cbv zeta. split; [ | vm_compute; repeat split ].
  intro tr. reflexivity.
Qed.

(** ** The static view of a validated body is faithful *)

Section ViewFacts.

Local Arguments String.eqb : simpl never.

(** X8: on a body that passed [Value.Assert] for a listing endpoint,
    [data.MediaContainer.Metadata] is an array, and every entry has string
    [ratingKey] and [title], a string [parentTitle] or none, and (for the
    children endpoint, which declares it) a number [userRating] or none:
    [metadataOf], [stringField] and [userRatingOrZero] read exactly what
    the program reads. *)
Lemma metadataOf_checked (endpoint : Endpoint) (data : value) :
  endpoint <> ENTITY_RATING_UPDATE ->
  Value_Check (Plex.responseSchema (Plex.EndpointConfig endpoint)) data = true ->
  exists container,
    get "MediaContainer" data = Some container /\
    get "Metadata" container = Some (JArr (Plex.metadataOf data)) /\
    forall entry, In entry (Plex.metadataOf data) ->
      get "ratingKey" entry = Some (JStr (Plex.stringField "ratingKey" entry)) /\
      get "title" entry = Some (JStr (Plex.stringField "title" entry)) /\
      (get "parentTitle" entry = None \/
       get "parentTitle" entry
         = Some (JStr (Plex.stringField "parentTitle" entry))) /\
      (get "userRating" entry = None \/
       get "userRating" entry = Some (JNum (Plex.userRatingOrZero entry)) \/
       endpoint = LIBRARY_SECTION_GET_ALL).
Proof.
  intros Hlisting Hshape.
  assert (Hentry : forall entry,
    Value_Check (TObject [ ("parentTitle", TOptional TString);
                           ("ratingKey", TString); ("title", TString) ])
      entry = true ->
    get "ratingKey" entry = Some (JStr (Plex.stringField "ratingKey" entry)) /\
    get "title" entry = Some (JStr (Plex.stringField "title" entry)) /\
    (get "parentTitle" entry = None \/
     get "parentTitle" entry
       = Some (JStr (Plex.stringField "parentTitle" entry)))).
  { intros [ | | | | | fields]; cbn; try discriminate.
    unfold Plex.stringField; cbn.
    destruct (lookup "parentTitle" fields) as [[ | | | | | ] | ];
      destruct (lookup "ratingKey" fields) as [[ | | | | | ] | ];
      destruct (lookup "title" fields) as [[ | | | | | ] | ];
      cbn; try discriminate; auto. }
  unfold Plex.metadataOf.
  destruct endpoint; [ | | congruence ];
    destruct data as [ | | | | | fields]; try discriminate;
    cbn [get]; cbn in Hshape;
    destruct (lookup "MediaContainer" fields) as [container | ];
    try discriminate; exists container; (split; [reflexivity | ]);
    destruct container as [ | | | | | inner]; try discriminate;
    cbn in Hshape |- *;
    destruct (lookup "Metadata" inner) as [[ | | | | entries | ] | ];
    try discriminate; (split; [reflexivity | ]);
    rewrite !andb_true_r in Hshape;
    rewrite forallb_forall in Hshape;
    intros entry Hin; specialize (Hshape entry Hin).
  - destruct (Hentry entry Hshape) as [Hkey [Htitle Hparent]]. auto 6.
  - assert (Hbase : Value_Check
        (TObject [ ("parentTitle", TOptional TString);
                   ("ratingKey", TString); ("title", TString) ]) entry = true).
    { destruct entry as [ | | | | | efields]; try discriminate.
      cbn in Hshape |- *.
      repeat match goal with
             | H : (_ && _)%bool = true |- _ =>
                 apply andb_true_iff in H; destruct H
             end.
      repeat (apply andb_true_iff; split); auto. }
    destruct (Hentry entry Hbase) as [Hkey [Htitle Hparent]].
    repeat split; auto.
    destruct entry as [ | | | | | efields]; try discriminate.
    unfold Plex.userRatingOrZero. cbn in Hshape |- *.
    destruct (lookup "userRating" efields) as [[ | | | | | ] | ]; auto;
      repeat match goal with
             | H : (_ && _)%bool = true |- _ =>
                 apply andb_true_iff in H; destruct H
             end; discriminate.
Qed.

End ViewFacts.

(* ================================================================== *)
(** * Further properties of the Plex client *)

Section TransportFacts.

Variable world : World.
Variable self : Plex.PlexClient.

(** A response whose status is not a success: the failure is logged with
    the body text and the status, and [PlexFetchError] is thrown; the
    body is neither parsed nor validated. *)
Lemma fetch_not_ok (endpoint : Endpoint) (url : list (string * value))
    (tr : list Event) (response : Response) :
  Client.validRequest endpoint url = true ->
  Client.canSend world self = true ->
  http world tr (Client.requestFor self endpoint url) = Ok response ->
  ok response = false ->
  Plex.fetch world self endpoint url tr =
    (Err PlexFetchError,
     (tr ++ [EFetch (Client.requestFor self endpoint url);
             Client.fetchFailed self response])%list).
Proof.
  unfold Client.canSend.
  intros Hvalid [Htoken Hbase]%andb_true_iff Hhttp Hok.
  rewrite fetch_start, Hvalid, Htoken, Hbase.
  unfold bind at 1. unfold Plex.globalFetch, perform.
  rewrite Hhttp, Hok. cbn [negb].
  unfold bind, Pino.log, emit, throw, Client.fetchFailed.
  now rewrite <- app_assoc.
Qed.

(** A rejection of the global [fetch] is the rejection of [fetch]: it is
    not caught, not logged and not wrapped. *)
Lemma fetch_rejected (endpoint : Endpoint) (url : list (string * value))
    (tr : list Event) (e : Exn) :
  Client.validRequest endpoint url = true ->
  Client.canSend world self = true ->
  http world tr (Client.requestFor self endpoint url) = Err e ->
  Plex.fetch world self endpoint url tr =
    (Err e, (tr ++ [EFetch (Client.requestFor self endpoint url)])%list).
Proof.
  unfold Client.canSend.
  intros Hvalid [Htoken Hbase]%andb_true_iff Hhttp.
  rewrite fetch_start, Hvalid, Htoken, Hbase.
  unfold bind at 1. unfold Plex.globalFetch, perform.
  now rewrite Hhttp.
Qed.

(** A successful response that is not announced as empty and whose body
    is not JSON: [response.json()] throws, before anything is logged or
    validated. *)
Lemma fetch_not_json (endpoint : Endpoint) (url : list (string * value))
    (tr : list Event) (response : Response) :
  Client.validRequest endpoint url = true ->
  Client.canSend world self = true ->
  http world tr (Client.requestFor self endpoint url) = Ok response ->
  ok response = true ->
  Client.contentLength response <> Some 0%Z ->
  json response = None ->
  Plex.fetch world self endpoint url tr =
    (Err SyntaxError,
     (tr ++ [EFetch (Client.requestFor self endpoint url)])%list).
Proof.
  unfold Client.canSend.
  intros Hvalid [Htoken Hbase]%andb_true_iff Hhttp Hok Hlength Hjson.
  rewrite fetch_start, Hvalid, Htoken, Hbase.
  unfold bind at 1. unfold Plex.globalFetch, perform.
  rewrite Hhttp, Hok. cbn [negb].
  unfold bind at 1.
  assert (Hread :
    (match Client.contentLength response with
     | Some 0%Z => ret JNull
     | _ => Plex.responseJson response
     end) = throw SyntaxError).
  { unfold Plex.responseJson. rewrite Hjson.
    destruct (Client.contentLength response) as [[ | ? | ? ] | ]; congruence. }
  now rewrite Hread.
Qed.

(** No operation catches: when [fetch] fails with [e] on every valid
    request, each operation fails with [e]. *)
Lemma operations_propagate (e : Exn) :
  (forall endpoint url tr,
     Client.validRequest endpoint url = true ->
     fst (Plex.fetch world self endpoint url tr) = Err e) ->
  forall key rating tr,
    (0 <= rating)%Q -> (rating <= 10)%Q ->
    fst (Plex.listArtists world self (SectionByKey key) tr) = Err e /\
    fst (Plex.listAlbums world self (SectionByKey key) tr) = Err e /\
    fst (Plex.listArtistAlbums world self (ArtistByKey key) tr) = Err e /\
    fst (Plex.listAlbumTracks world self (AlbumByKey key) tr) = Err e /\
    fst (Plex.setTrackRating world self (TrackByKey key) rating tr) = Err e.
Proof.
  intros Hfetch key rating tr Hlow Hhigh.
  assert (Hrate : Client.validRequest ENTITY_RATING_UPDATE
                    (Client.rateUrl key rating) = true).
  { cbn. apply Qle_bool_iff in Hlow, Hhigh. now rewrite Hlow, Hhigh. }
  repeat split; to_fetch;
    match goal with
    | |- context [Plex.fetch world self ?endpoint ?u ?t] =>
        let H := fresh in
        pose proof (Hfetch endpoint u t) as H;
        destruct (Plex.fetch world self endpoint u t) as [[? | ?] ?];
        cbn [fst] in H |- *;
        match type of H with
        | ?condition -> _ =>
            let Hvalid := fresh in
            assert (Hvalid : condition) by first [ reflexivity | exact Hrate ];
            specialize (H Hvalid)
        end;
        first [ discriminate H | injection H as ->; reflexivity ]
    end.
Qed.

End TransportFacts.

Section OperationFacts.

Variable world : World.
Variable self : Plex.PlexClient.

(** X1: on a server that answers with a status that is not a success, every
    operation throws [PlexFetchError]; [fetch] has sent the request once,
    logged the body text and the status at error level, and has neither
    parsed nor validated the body. *)
Theorem transport_failure_is_raised (response : Response) :
  Client.canSend world self = true ->
  (forall tr request, http world tr request = Ok response) ->
  ok response = false ->
  (forall endpoint url tr,
     Client.validRequest endpoint url = true ->
     Plex.fetch world self endpoint url tr =
       (Err PlexFetchError,
        (tr ++ [EFetch (Client.requestFor self endpoint url);
                Client.fetchFailed self response])%list)) /\
  (forall key rating tr,
     (0 <= rating)%Q -> (rating <= 10)%Q ->
     fst (Plex.listArtists world self (SectionByKey key) tr)
       = Err PlexFetchError /\
     fst (Plex.listAlbums world self (SectionByKey key) tr)
       = Err PlexFetchError /\
     fst (Plex.listArtistAlbums world self (ArtistByKey key) tr)
       = Err PlexFetchError /\
     fst (Plex.listAlbumTracks world self (AlbumByKey key) tr)
       = Err PlexFetchError /\
     fst (Plex.setTrackRating world self (TrackByKey key) rating tr)
       = Err PlexFetchError).
Proof.
  intros Hsend Hhttp Hok.
  assert (Hfetch : forall endpoint url tr,
    Client.validRequest endpoint url = true ->
    Plex.fetch world self endpoint url tr =
      (Err PlexFetchError,
       (tr ++ [EFetch (Client.requestFor self endpoint url);
               Client.fetchFailed self response])%list)).
  { intros. now apply fetch_not_ok. }
  split; [exact Hfetch | ].
  apply operations_propagate. intros endpoint url tr Hvalid.
  now rewrite Hfetch.
Qed.

(** X2: when the network call itself is rejected, every operation is
    rejected with the same reason; [fetch] logs nothing about it. *)
Theorem network_rejection_is_passed_on (e : Exn) :
  Client.canSend world self = true ->
  (forall tr request, http world tr request = Err e) ->
  (forall endpoint url tr,
     Client.validRequest endpoint url = true ->
     Plex.fetch world self endpoint url tr =
       (Err e, (tr ++ [EFetch (Client.requestFor self endpoint url)])%list)) /\
  (forall key rating tr,
     (0 <= rating)%Q -> (rating <= 10)%Q ->
     fst (Plex.listArtists world self (SectionByKey key) tr) = Err e /\
     fst (Plex.listAlbums world self (SectionByKey key) tr) = Err e /\
     fst (Plex.listArtistAlbums world self (ArtistByKey key) tr) = Err e /\
     fst (Plex.listAlbumTracks world self (AlbumByKey key) tr) = Err e /\
     fst (Plex.setTrackRating world self (TrackByKey key) rating tr) = Err e).
Proof.
  intros Hsend Hhttp.
  assert (Hfetch : forall endpoint url tr,
    Client.validRequest endpoint url = true ->
    Plex.fetch world self endpoint url tr =
      (Err e, (tr ++ [EFetch (Client.requestFor self endpoint url)])%list)).
  { intros. now apply fetch_rejected. }
  split; [exact Hfetch | ].
  apply operations_propagate. intros endpoint url tr Hvalid.
  now rewrite Hfetch.
Qed.

(** X3: a successful response that does not announce [Content-Length: 0]
    and whose body is not JSON makes every operation throw the
    [SyntaxError] of [response.json()], [setTrackRating] included: an empty
    body is accepted only when the header announces it. *)
Theorem unparsable_body_is_raised (response : Response) :
  Client.canSend world self = true ->
  (forall tr request, http world tr request = Ok response) ->
  ok response = true ->
  Client.contentLength response <> Some 0%Z ->
  json response = None ->
  (forall endpoint url tr,
     Client.validRequest endpoint url = true ->
     Plex.fetch world self endpoint url tr =
       (Err SyntaxError,
        (tr ++ [EFetch (Client.requestFor self endpoint url)])%list)) /\
  (forall key rating tr,
     (0 <= rating)%Q -> (rating <= 10)%Q ->
     fst (Plex.listArtists world self (SectionByKey key) tr) = Err SyntaxError /\
     fst (Plex.listAlbums world self (SectionByKey key) tr) = Err SyntaxError /\
     fst (Plex.listArtistAlbums world self (ArtistByKey key) tr)
       = Err SyntaxError /\
     fst (Plex.listAlbumTracks world self (AlbumByKey key) tr)
       = Err SyntaxError /\
     fst (Plex.setTrackRating world self (TrackByKey key) rating tr)
       = Err SyntaxError).
Proof.
  intros Hsend Hhttp Hok Hlength Hjson.
  assert (Hfetch : forall endpoint url tr,
    Client.validRequest endpoint url = true ->
    Plex.fetch world self endpoint url tr =
      (Err SyntaxError,
       (tr ++ [EFetch (Client.requestFor self endpoint url)])%list)).
  { intros. now apply fetch_not_json with (response := response). }
  split; [exact Hfetch | ].
  apply operations_propagate. intros endpoint url tr Hvalid.
  now rewrite Hfetch.
Qed.

(** X4: a rating below 0 or above 10 never leaves the client:
    [setTrackRating] throws the validation error of the request, and
    nothing is sent or logged. *)
Theorem rating_out_of_range_is_not_sent
    (key : string) (rating : Q) (tr : list Event) :
  (rating < 0 \/ 10 < rating)%Q ->
  Plex.setTrackRating world self (TrackByKey key) rating tr
    = (Err AssertError, tr).
Proof.
  intro Hout. to_fetch.
  change (Plex.fetch world self ENTITY_RATING_UPDATE
            [ ("identifier", JStr "com.plexapp.plugins.library");
              ("key", JStr key); ("rating", JNum rating) ] tr)
    with (Plex.fetch world self ENTITY_RATING_UPDATE
            (Client.rateUrl key rating) tr).
  rewrite fetch_start.
  assert (Hinvalid : Client.validRequest ENTITY_RATING_UPDATE
                       (Client.rateUrl key rating) = false).
  { cbn. rewrite !andb_true_r.
    destruct (Qle_bool 0 rating) eqn:Hlow;
      destruct (Qle_bool rating 10) eqn:Hhigh; try reflexivity.
    apply Qle_bool_iff in Hlow, Hhigh. lra. }
  now rewrite Hinvalid.
Qed.

(** X5: [setTrackRating] puts no condition on what the server sends back
    with a success status: with a rating from 0 to 10, a body announced as
    empty or any JSON body at all makes it return normally, after one
    request carrying the identifier, the key and the rating. *)
Theorem rating_update_accepts_any_body
    (key : string) (rating : Q) (tr : list Event)
    (response : Response) (body : value) :
  Client.canSend world self = true ->
  (0 <= rating)%Q -> (rating <= 10)%Q ->
  http world tr
    (Client.requestFor self ENTITY_RATING_UPDATE (Client.rateUrl key rating))
    = Ok response ->
  ok response = true ->
  Client.bodyOf response = Some body ->
  Plex.setTrackRating world self (TrackByKey key) rating tr =
    (Ok tt,
     (tr ++ [EFetch (Client.requestFor self ENTITY_RATING_UPDATE
                       (Client.rateUrl key rating));
             Client.debugBody self body])%list) /\
  requestVariables
    (Client.requestFor self ENTITY_RATING_UPDATE (Client.rateUrl key rating))
    = [ ("identifier", JStr "com.plexapp.plugins.library");
        ("key", JStr key); ("rating", JNum rating) ].
Proof.
  intros Hsend Hlow Hhigh Hhttp Hok Hbody. split; [ | reflexivity ].
  assert (Hvalid : Client.validRequest ENTITY_RATING_UPDATE
                     (Client.rateUrl key rating) = true).
  { cbn. apply Qle_bool_iff in Hlow, Hhigh. now rewrite Hlow, Hhigh. }
  to_fetch.
  change (Plex.fetch world self ENTITY_RATING_UPDATE
            [ ("identifier", JStr "com.plexapp.plugins.library");
              ("key", JStr key); ("rating", JNum rating) ] tr)
    with (Plex.fetch world self ENTITY_RATING_UPDATE
            (Client.rateUrl key rating) tr).
  unfold Client.bodyOf in Hbody.
  destruct (Client.contentLength response) as [[ | p | p ] | ] eqn:Hlength.
  - injection Hbody as <-.
    now rewrite (fetch_empty world self _ _ _ response).
  - rewrite (fetch_body world self _ _ _ response body);
      [ reflexivity | first [ assumption | rewrite Hlength; discriminate ] .. ].
  - rewrite (fetch_body world self _ _ _ response body);
      [ reflexivity | first [ assumption | rewrite Hlength; discriminate ] .. ].
  - rewrite (fetch_body world self _ _ _ response body);
      [ reflexivity | first [ assumption | rewrite Hlength; discriminate ] .. ].
Qed.

End OperationFacts.

Lemma transport_failure_is_raised_witness :
  fst (Plex.listAlbums (Examples.serverReplies Examples.serverError)
         Examples.plex (SectionByKey "3") []) = Err PlexFetchError /\
  fst (Plex.setTrackRating (Examples.serverReplies Examples.serverError)
         Examples.plex (TrackByKey "200") 8 []) = Err PlexFetchError.
Proof.
  pose proof (transport_failure_is_raised
                (Examples.serverReplies Examples.serverError)
                Examples.plex Examples.serverError
                eq_refl (fun _ _ => eq_refl) eq_refl) as [_ Hops].
  assert (Hlow : (0 <= 8)%Q) by (unfold Qle; simpl; lia).
  assert (Hhigh : (8 <= 10)%Q) by (unfold Qle; simpl; lia).
  destruct (Hops "3" 8%Q [] Hlow Hhigh) as [_ [Halbums _]].
  destruct (Hops "200" 8%Q [] Hlow Hhigh) as [_ [_ [_ [_ Hrate]]]].
  split; assumption.
Defined.

Lemma network_rejection_is_passed_on_witness :
  fst (Plex.listAlbumTracks (Examples.bridgePrints "80")
         Examples.plex (AlbumByKey "101") []) = Err (Rejected "unreachable").
Proof.
  pose proof (network_rejection_is_passed_on (Examples.bridgePrints "80")
                Examples.plex (Rejected "unreachable")
                eq_refl (fun _ _ => eq_refl)) as [_ Hops].
  assert (Hlow : (0 <= 8)%Q) by (unfold Qle; simpl; lia).
  assert (Hhigh : (8 <= 10)%Q) by (unfold Qle; simpl; lia).
  destruct (Hops "101" 8%Q [] Hlow Hhigh) as [_ [_ [_ [Htracks _]]]].
  exact Htracks.
Defined.

Lemma unparsable_body_is_raised_witness :
  fst (Plex.setTrackRating (Examples.serverReplies Examples.unannouncedEmpty)
         Examples.plex (TrackByKey "200") 8 []) = Err SyntaxError.
Proof.
  assert (Hlength : Client.contentLength Examples.unannouncedEmpty <> Some 0%Z)
    by discriminate.
  pose proof (unparsable_body_is_raised
                (Examples.serverReplies Examples.unannouncedEmpty)
                Examples.plex Examples.unannouncedEmpty
                eq_refl (fun _ _ => eq_refl) eq_refl Hlength eq_refl)
    as [_ Hops].
  assert (Hlow : (0 <= 8)%Q) by (unfold Qle; simpl; lia).
  assert (Hhigh : (8 <= 10)%Q) by (unfold Qle; simpl; lia).
  destruct (Hops "200" 8%Q [] Hlow Hhigh) as [_ [_ [_ [_ Hrate]]]].
  exact Hrate.
Defined.

Lemma rating_out_of_range_is_not_sent_witness :
  Plex.setTrackRating (Examples.serverReplies Examples.emptyResponse)
    Examples.plex (TrackByKey "200") 25 [] = (Err AssertError, []).
Proof.
  apply rating_out_of_range_is_not_sent. right. reflexivity.
Defined.

Lemma rating_update_accepts_any_body_witness :
  Plex.setTrackRating
    (Examples.serverReplies (Examples.jsonResponse (JStr "done")))
    Examples.plex (TrackByKey "200") 8 [] =
    (Ok tt,
     [ EFetch (Client.requestFor Examples.plex ENTITY_RATING_UPDATE
                 (Client.rateUrl "200" 8));
       Client.debugBody Examples.plex (JStr "done") ]).
Proof.
  assert (Hlow : (0 <= 8)%Q) by (unfold Qle; simpl; lia).
  assert (Hhigh : (8 <= 10)%Q) by (unfold Qle; simpl; lia).
  exact (proj1 (rating_update_accepts_any_body
                  (Examples.serverReplies (Examples.jsonResponse (JStr "done")))
                  Examples.plex "200" 8%Q []
                  (Examples.jsonResponse (JStr "done")) (JStr "done")
                  eq_refl Hlow Hhigh eq_refl eq_refl eq_refl)).
Defined.

Section EntryFacts.

Variable world : World.
Variable self : Plex.PlexClient.

(** A [map] whose callback returns [g x] on every element of the list
    returns the list of those values, in order. *)
Lemma mapM_total {A B : Type} (callback : A -> M B) (g : A -> B)
    (xs : list A) :
  (forall x, In x xs -> forall tr, fst (callback x tr) = Ok (g x)) ->
  forall tr, fst (mapM callback xs tr) = Ok (map g xs).
Proof.
  induction xs as [ | x rest IH]; intros Hcallback tr; [reflexivity | ].
  cbn [mapM map]. unfold bind at 1.
  pose proof (Hcallback x (or_introl eq_refl) tr) as Hx.
  destruct (callback x tr) as [[y | e] tr1]; cbn [fst] in Hx;
    [ | discriminate ].
  injection Hx as ->. unfold bind at 1.
  assert (Hrest : fst (mapM callback rest tr1) = Ok (map g rest)).
  { apply IH. intros x' Hin. apply Hcallback. now right. }
  destruct (mapM callback rest tr1) as [[ys | e] tr2]; cbn [fst] in Hrest;
    [ | discriminate ].
  injection Hrest as ->. reflexivity.
Qed.

Lemma transformAlbum_value (entry : value) (tr : list Event) :
  get "parentTitle" entry <> None ->
  fst (Plex.transformAlbum self entry tr) = Ok (Client.albumOf entry).
Proof.
  intro Hparent. unfold Plex.transformAlbum, bind, Pino.log, emit, ret.
  destruct (get "parentTitle" entry); [reflexivity | congruence].
Qed.

Lemma transformTrack_value (entry : value) (tr : list Event) :
  get "parentTitle" entry <> None ->
  fst (Plex.transformTrack self entry tr) = Ok (Client.trackOf entry).
Proof.
  intro Hparent. unfold Plex.transformTrack, bind, Pino.log, emit, ret.
  destruct (get "parentTitle" entry); [reflexivity | congruence].
Qed.

(** X6: for a listing of the declared shape, [listArtists] returns one
    entry per entry of the payload, in the order of the payload, however
    many there are and whether or not they have a [parentTitle].  The
    [limit: 10] it passes to [fetch] is not a variable of the URL template,
    so the request carries the key and the type 8 only. *)
Theorem listArtists_returns_every_entry
    (key : string) (response : Response) (payload : value) :
  Client.canSend world self = true ->
  Client.answers world
    (Client.requestFor self LIBRARY_SECTION_GET_ALL (Client.artistsUrl key))
    response ->
  ok response = true ->
  Client.contentLength response <> Some 0%Z ->
  json response = Some payload ->
  Value_Check (Plex.responseSchema (Plex.EndpointConfig LIBRARY_SECTION_GET_ALL))
    payload = true ->
  (forall tr,
     fst (Plex.listArtists world self (SectionByKey key) tr) =
       Ok (map Client.artistOf (Plex.metadataOf payload))) /\
  requestVariables
    (Client.requestFor self LIBRARY_SECTION_GET_ALL (Client.artistsUrl key))
    = [("key", JStr key); ("type", JNum 8)].
Proof.
  intros Hsend Hanswers Hok Hlength Hjson Hshape.
  split; [ | reflexivity ].
  intro tr. to_fetch.
  rewrite (fetch_body world self LIBRARY_SECTION_GET_ALL
             (Client.artistsUrl key) _ response payload); auto.
  rewrite Hshape.
  apply (mapM_total _ Client.artistOf). reflexivity.
Qed.

(** X7: when every entry of a listing of the declared shape has a
    [parentTitle], [listAlbums], [listArtistAlbums] and [listAlbumTracks]
    return one entry per entry of the payload, in the order of the payload,
    with the key, the name and the parent name read from [ratingKey],
    [title] and [parentTitle] (and the rating of a track from
    [userRating], 0 when there is none). *)
Theorem listings_return_every_entry
    (key : string) (response : Response) (payload : value) :
  Client.canSend world self = true ->
  ok response = true ->
  Client.contentLength response <> Some 0%Z ->
  json response = Some payload ->
  Client.allHaveParent payload ->
  (Client.answers world
     (Client.requestFor self LIBRARY_SECTION_GET_ALL
        (Client.sectionUrl key Plex.SearchType_album)) response ->
   Value_Check
     (Plex.responseSchema (Plex.EndpointConfig LIBRARY_SECTION_GET_ALL))
     payload = true ->
   forall tr,
     fst (Plex.listAlbums world self (SectionByKey key) tr) =
       Ok (map Client.albumOf (Plex.metadataOf payload))) /\
  (Client.answers world
     (Client.requestFor self METADATA_GET_CHILDREN (Client.childrenUrl key))
     response ->
   Value_Check
     (Plex.responseSchema (Plex.EndpointConfig METADATA_GET_CHILDREN))
     payload = true ->
   forall tr,
     fst (Plex.listArtistAlbums world self (ArtistByKey key) tr) =
       Ok (map Client.albumOf (Plex.metadataOf payload)) /\
     fst (Plex.listAlbumTracks world self (AlbumByKey key) tr) =
       Ok (map Client.trackOf (Plex.metadataOf payload))).
Proof.
  intros Hsend Hok Hlength Hjson Hparents. split.
  - intros Hanswers Hshape tr. to_fetch.
    rewrite (fetch_body world self LIBRARY_SECTION_GET_ALL
               (Client.sectionUrl key Plex.SearchType_album) _ response payload);
      auto.
    rewrite Hshape. apply mapM_total.
    intros entry Hin tr'. apply transformAlbum_value. now apply Hparents.
  - intros Hanswers Hshape tr. split; to_fetch;
      rewrite (fetch_body world self METADATA_GET_CHILDREN
                 (Client.childrenUrl key) _ response payload); auto;
      rewrite Hshape; apply mapM_total; intros entry Hin tr'.
    + apply transformAlbum_value. now apply Hparents.
    + apply transformTrack_value. now apply Hparents.
Qed.

End EntryFacts.

Lemma listArtists_returns_every_entry_witness :
  fst (Plex.listArtists
         (Examples.serverReplies (Examples.jsonResponse Examples.twoArtists))
         Examples.plex (SectionByKey "3") []) =
    Ok [ mkArtist "11" "The Beatles"; mkArtist "12" "Pink Floyd" ].
Proof.
  assert (Hlength : Client.contentLength
                      (Examples.jsonResponse Examples.twoArtists) <> Some 0%Z)
    by discriminate.
  exact (proj1 (listArtists_returns_every_entry
                  (Examples.serverReplies
                     (Examples.jsonResponse Examples.twoArtists))
                  Examples.plex "3"
                  (Examples.jsonResponse Examples.twoArtists)
                  Examples.twoArtists
                  eq_refl (fun _ => eq_refl) eq_refl Hlength eq_refl eq_refl)
           []).
Defined.

Lemma listings_return_every_entry_witness :
  fst (Plex.listAlbums
         (Examples.serverReplies (Examples.jsonResponse Examples.oneAlbum))
         Examples.plex (SectionByKey "3") []) = Ok [Examples.abbeyRoad] /\
  fst (Plex.listAlbumTracks
         (Examples.serverReplies (Examples.jsonResponse Examples.twoTracks))
         Examples.plex (AlbumByKey "101") []) =
    Ok [ Examples.trackRated 0; mkTrack "201" "Something" "Abbey Road" 0 ].
Proof.
  split.
  - refine (proj1 (listings_return_every_entry
              (Examples.serverReplies (Examples.jsonResponse Examples.oneAlbum))
              Examples.plex "3" (Examples.jsonResponse Examples.oneAlbum)
              Examples.oneAlbum eq_refl eq_refl _ eq_refl _)
              (fun _ => eq_refl) eq_refl []).
    + discriminate.
    + intros entry [<- | []]. discriminate.
  - refine (proj2 (proj2 (listings_return_every_entry
              (Examples.serverReplies (Examples.jsonResponse Examples.twoTracks))
              Examples.plex "101" (Examples.jsonResponse Examples.twoTracks)
              Examples.twoTracks eq_refl eq_refl _ eq_refl _)
              (fun _ => eq_refl) eq_refl [])).
    + discriminate.
    + intros entry [<- | [<- | []]]; discriminate.
Defined.

(** The static view read on a concrete validated listing. *)
Lemma metadataOf_checked_witness :
  exists container,
    get "MediaContainer" Examples.twoTracks = Some container /\
    get "Metadata" container
      = Some (JArr (Plex.metadataOf Examples.twoTracks)) /\
    forall entry, In entry (Plex.metadataOf Examples.twoTracks) ->
      get "ratingKey" entry = Some (JStr (Plex.stringField "ratingKey" entry)) /\
      get "title" entry = Some (JStr (Plex.stringField "title" entry)) /\
      (get "parentTitle" entry = None \/
       get "parentTitle" entry
         = Some (JStr (Plex.stringField "parentTitle" entry))) /\
      (get "userRating" entry = None \/
       get "userRating" entry = Some (JNum (Plex.userRatingOrZero entry)) \/
       METADATA_GET_CHILDREN = LIBRARY_SECTION_GET_ALL).
Proof.
  apply (metadataOf_checked METADATA_GET_CHILDREN Examples.twoTracks).
  - discriminate.
  - reflexivity.
Defined.

(* ================================================================== *)
(** * The shape of the trace of a pass *)

Section AppendFacts.

Variable P : Event -> Prop.

Lemma appends_ret {A : Type} (a : A) : Trace.appendsOnly P (ret a).
Proof. intro tr. exists []. cbn. now rewrite app_nil_r. Qed.

Lemma appends_throw {A : Type} (e : Exn) :
  Trace.appendsOnly P (throw e : M A).
Proof. intro tr. exists []. cbn. now rewrite app_nil_r. Qed.

Lemma appends_emit (e : Event) : P e -> Trace.appendsOnly P (emit e).
Proof. intros He tr. exists [e]. cbn. auto. Qed.

Lemma appends_perform {A : Type} (e : Event)
    (answer : list Event -> Result A) :
  P e -> Trace.appendsOnly P (perform e answer).
Proof. intros He tr. exists [e]. cbn. auto. Qed.

Lemma appends_bind {A B : Type} (m : M A) (k : A -> M B) :
  Trace.appendsOnly P m ->
  (forall a, Trace.appendsOnly P (k a)) ->
  Trace.appendsOnly P (bind m k).
Proof.
  intros Hm Hk tr. unfold bind.
  destruct (Hm tr) as [evs1 [Heq1 Hall1]].
  destruct (m tr) as [[a | e] tr1]; cbn [snd] in Heq1; subst tr1.
  - destruct (Hk a (tr ++ evs1)%list) as [evs2 [Heq2 Hall2]].
    exists (evs1 ++ evs2)%list. rewrite Heq2, app_assoc.
    split; [reflexivity | now apply Forall_app].
  - now exists evs1.
Qed.

Lemma appends_tryCatch {A : Type} (body : M A) (handler : Exn -> M A) :
  Trace.appendsOnly P body ->
  (forall e, Trace.appendsOnly P (handler e)) ->
  Trace.appendsOnly P (tryCatch body handler).
Proof.
  intros Hbody Hhandler tr. unfold tryCatch.
  destruct (Hbody tr) as [evs1 [Heq1 Hall1]].
  destruct (body tr) as [[a | e] tr1]; cbn [snd] in Heq1; subst tr1.
  - now exists evs1.
  - destruct (Hhandler e (tr ++ evs1)%list) as [evs2 [Heq2 Hall2]].
    exists (evs1 ++ evs2)%list. rewrite Heq2, app_assoc.
    split; [reflexivity | now apply Forall_app].
Qed.

Lemma appends_when (b : bool) (m : M unit) :
  Trace.appendsOnly P m -> Trace.appendsOnly P (when b m).
Proof. destruct b; [trivial | intros _; apply appends_ret]. Qed.

Lemma appends_forOf {A : Type} (xs : list A) (body : A -> M unit) :
  (forall x, Trace.appendsOnly P (body x)) ->
  Trace.appendsOnly P (forOf xs body).
Proof.
  intro Hbody. induction xs as [ | x rest IH]; cbn [forOf].
  - apply appends_ret.
  - apply appends_bind; auto.
Qed.

Lemma appends_mapM {A B : Type} (callback : A -> M B) (xs : list A) :
  (forall x, Trace.appendsOnly P (callback x)) ->
  Trace.appendsOnly P (mapM callback xs).
Proof.
  intro Hcallback. induction xs as [ | x rest IH]; cbn [mapM].
  - apply appends_ret.
  - apply appends_bind; [auto | intro y].
    apply appends_bind; [exact IH | intro ys]. apply appends_ret.
Qed.

End AppendFacts.

(** Proves [appendsOnly] for code built from the combinators, where every
    event emitted is a log entry below fatal, a request or a script. *)
Ltac appends :=
  repeat first
    [ apply appends_ret
    | apply appends_throw
    | apply appends_emit; cbn; first [ exact I | discriminate ]
    | apply appends_perform; exact I
    | apply appends_bind; [ | intro ]
    | apply appends_when
    | apply appends_mapM; intro
    | progress cbv zeta
    | progress unfold Pino.log, Pino.logError, Plex.Value_Assert,
        Plex.headersSet, Plex.newURL, Plex.globalFetch, Plex.responseJson,
        Plex.getSectionKey, Plex.getAlbumKey, Plex.getArtistKey,
        Plex.getTrackKey, Plex.transformAlbum, Plex.transformTrack
    | match goal with
      | |- Trace.appendsOnly _ (if ?c then _ else _) => destruct c
      | |- Trace.appendsOnly _ (match ?x with Some _ => _ | None => _ end) =>
          destruct x
      | |- Trace.appendsOnly _
             (match ?z with Z0 => _ | Zpos _ => _ | Zneg _ => _ end) =>
          destruct z
      end ].

Section PassShape.

Variable world : World.
Variable logger : Pino.Logger.
Variable options : Ratesync.RatesyncOptions.

Let P := Trace.passEvent options.

Lemma fetch_events (self : Plex.PlexClient) (endpoint : Endpoint)
    (url : list (string * value)) :
  Trace.appendsOnly P (Plex.fetch world self endpoint url).
Proof. unfold Plex.fetch. appends. Qed.

Lemma listAlbums_events (self : Plex.PlexClient) (section : SectionRef) :
  Trace.appendsOnly P (Plex.listAlbums world self section).
Proof.
  unfold Plex.listAlbums. destruct section; appends;
    try apply fetch_events.
Qed.

Lemma listAlbumTracks_events (self : Plex.PlexClient) (album : AlbumRef) :
  Trace.appendsOnly P (Plex.listAlbumTracks world self album).
Proof.
  unfold Plex.listAlbumTracks. destruct album; appends;
    try apply fetch_events.
Qed.

(** The reader returns an integer. *)
Lemma ratingOf_integer (outcome : Result string) :
  exists z : Z, Reader.ratingOf outcome = inject_Z z.
Proof.
  destruct outcome as [result | e]; cbn; [ | now exists 0%Z ].
  destruct (parseInt (trim result)) as [native | ]; [ | now exists 0%Z ].
  unfold Reader.scaled. eauto.
Qed.

Lemma trackBody_events (appleMusicClient : AppleMusic.AppleMusicClient)
    (album : AlbumEntry) (track : TrackEntry) :
  Trace.appendsOnly P
    (Ratesync.trackBody world logger options appleMusicClient album track).
Proof.
  intro tr. rewrite trackBody_decide. cbv zeta. cbn [snd].
  eexists. split; [reflexivity | ].
  set (their := Engine.theirRatingAt world logger album track tr).
  assert (Hinteger : exists z : Z, their = inject_Z z)
    by apply ratingOf_integer.
  assert (Hlookup : Forall P
            (Engine.beforeLookup logger album track ++
             Engine.lookupEvents world appleMusicClient logger album track tr)).
  { unfold Engine.lookupEvents, Engine.beforeLookup, Engine.entry.
    destruct (appleScript world _ _); repeat constructor; discriminate. }
  unfold decide.
  destruct (negb (Ratesync.overrideExisting options) && gtb (rating track) 0).
  { repeat constructor; discriminate. }
  destruct (eqb_reflect their 0).
  { apply Forall_app. split; [exact Hlookup | ].
    repeat constructor; discriminate. }
  destruct (eqb their (rating track)).
  { apply Forall_app. split; [exact Hlookup | ].
    repeat constructor; discriminate. }
  assert (Hcall : Forall P
            (if Ratesync.dryRun options then []
             else [EFloating (TrackByKey (trackKey track)) their])).
  { destruct (Ratesync.dryRun options) eqn:Hdry; constructor; [ | constructor ].
    cbn. rewrite Hdry. split; [reflexivity | ].
    split; [now exists (trackKey track) | split; assumption ]. }
  destruct (eqb (rating track) 0);
    [ | destruct (Ratesync.overrideExisting options) ];
    apply Forall_app; (split; [exact Hlookup | ]);
    unfold Engine.branchEvents; try constructor;
    try exact Hcall; try discriminate.
Qed.

Lemma albumBody_events (appleMusicClient : AppleMusic.AppleMusicClient)
    (plexClient : Plex.PlexClient) (album : AlbumEntry) :
  Trace.appendsOnly P
    (Ratesync.albumBody world logger options appleMusicClient plexClient album).
Proof.
  unfold Ratesync.albumBody. appends;
    try apply listAlbumTracks_events.
  apply appends_forOf. intro track. apply trackBody_events.
Qed.

Lemma tryBlock_events :
  Trace.appendsOnly P (Engine.tryBlock world logger options).
Proof.
  unfold Engine.tryBlock. appends;
    try apply listAlbums_events.
  apply appends_forOf. intro album. apply albumBody_events.
Qed.

Lemma announce_trace (tr : list Event) :
  Engine.announce logger options tr =
    (Ok tt, (tr ++ Trace.announced logger options)%list).
Proof.
  unfold Engine.announce, Trace.announced, when, bind, Pino.log,
    Ratesync.sleep, emit, ret, Engine.entry.
  destruct (Ratesync.dryRun options), (Ratesync.overrideExisting options);
    cbn [app]; rewrite <- ?app_assoc, ?app_nil_r; reflexivity.
Qed.

(** The trace of [run]: the announcements, what the [try] block appends,
    and then either the summary (the pass returns) or the fatal entry (the
    pass throws what the block threw). *)
Lemma run_shape (tr : list Event) :
  let started := (tr ++ Trace.announced logger options)%list in
  exists body,
    Forall P body /\
    snd (Engine.tryBlock world logger options started)
      = (started ++ body)%list /\
    Ratesync.run world logger options tr =
      match fst (Engine.tryBlock world logger options started) with
      | Ok _ =>
          (Ok tt,
           (started ++ body ++
            [Trace.summaryEntry logger
               (Date_now world (started ++ body) - Date_now world started)])%list)
      | Err e =>
          (Err e, (started ++ body ++ [Engine.fatalEntry logger e])%list)
      end.
Proof.
  cbv zeta.
  destruct (tryBlock_events (tr ++ Trace.announced logger options)%list)
    as [body [Hbody Hall]].
  exists body. split; [exact Hall | split; [exact Hbody | ] ].
  rewrite run_unfold. unfold bind at 1. rewrite announce_trace.
  unfold bind at 1. unfold Ratesync.now at 1.
  unfold bind at 1. unfold tryCatch.
  destruct (Engine.tryBlock world logger options _) as [[[] | e] tr1];
    cbn [fst snd] in *; subst tr1.
  - unfold bind, Ratesync.now, Pino.log, emit, Trace.summaryEntry,
      Engine.entry.
    now rewrite <- app_assoc.
  - unfold bind, Pino.logError, Pino.log, emit, throw, Engine.fatalEntry.
    now rewrite <- app_assoc.
Qed.

End PassShape.

Lemma passEvent_notFatal (options : Ratesync.RatesyncOptions) (evs : list Event) :
  Forall (Trace.passEvent options) evs -> Forall Trace.notFatal evs.
Proof.
  apply Forall_impl. intros [entry | ms | request | source | track r];
    cbn; tauto.
Qed.

Lemma passEvent_calls (options : Ratesync.RatesyncOptions) (evs : list Event) :
  Forall (Trace.passEvent options) evs ->
  Forall Trace.soundCall (ratingCalls evs) /\
  Trace.sleeps evs = [] /\
  (Ratesync.dryRun options = true -> ratingCalls evs = []).
Proof.
  induction 1 as [ | e evs He Hevs [IHcalls [IHsleeps IHdry]]].
  - repeat split; constructor.
  - destruct e as [entry | ms | request | source | track r]; cbn in *;
      try (repeat split; assumption); try contradiction.
    destruct He as [Hdry Hsound]. split; [ | split ].
    + now constructor.
    + assumption.
    + congruence.
Qed.

Lemma announced_facts (logger : Pino.Logger)
    (options : Ratesync.RatesyncOptions) :
  Forall Trace.notFatal (Trace.announced logger options) /\
  ratingCalls (Trace.announced logger options) = [] /\
  requestsSent (Trace.announced logger options) = [] /\
  scriptsRun (Trace.announced logger options) = [] /\
  Trace.sleeps (Trace.announced logger options) =
    ((if Ratesync.dryRun options then [2000%Z] else []) ++
     (if Ratesync.overrideExisting options then [5000%Z] else []))%list.
Proof.
  unfold Trace.announced, Engine.entry.
  destruct (Ratesync.dryRun options), (Ratesync.overrideExisting options);
    cbn; repeat split; repeat constructor; discriminate.
Qed.

Lemma sleeps_app (a b : list Event) :
  Trace.sleeps (a ++ b) = (Trace.sleeps a ++ Trace.sleeps b)%list.
Proof. apply flat_map_app. Qed.

Section PassProperties.

Variable world : World.
Variable logger : Pino.Logger.
Variable options : Ratesync.RatesyncOptions.

(** X9: a pass in which no [setTrackRating] call is made (a dry run, for
    one, or a library that needs no write), run in a world that answers
    every call, ends in exactly one of two ways.  Either it returns, and
    its last event is the summary with the time elapsed between its two
    readings of the clock; or it throws, and its last event is an entry
    logged at fatal level.  No fatal entry is logged before the end, and
    none when the pass returns.  (A pass that has made a call leaves a
    promise behind whose rejection is outside this statement.) *)
Theorem pass_ends_with_summary_or_fatal (tr : list Event) :
  let pass := Ratesync.run world logger options tr in
  let started := (tr ++ Trace.announced logger options)%list in
  ratingCalls (snd pass) = ratingCalls tr ->
  exists body,
    Forall Trace.notFatal (Trace.announced logger options ++ body) /\
    ratingCalls body = [] /\
    ((fst pass = Ok tt /\
      snd pass =
        (started ++ body ++
         [Trace.summaryEntry logger
            (Date_now world (started ++ body) - Date_now world started)])%list)
     \/
     (exists e entry,
        fst pass = Err e /\
        level entry = LFatal /\
        snd pass = (started ++ body ++ [ELog entry])%list)).
Proof.
  cbv zeta. intro Hquiet.
  destruct (run_shape world logger options tr) as [body [Hall [_ Hrun]]].
  destruct (announced_facts logger options) as [Hannounced [Hnone _]].
  exists body. split; [ | split ].
  - apply Forall_app. split; [exact Hannounced | ].
    now apply passEvent_notFatal with (options := options).
  - rewrite Hrun in Hquiet.
    destruct (fst (Engine.tryBlock world logger options _)) as [[] | e];
      cbn [snd] in Hquiet;
      rewrite !ratingCalls_app, Hnone in Hquiet; cbn in Hquiet;
      rewrite !app_nil_r in Hquiet;
      rewrite <- (app_nil_r (ratingCalls tr)) in Hquiet at 2;
      now apply app_inv_head in Hquiet.
  - rewrite Hrun.
    destruct (fst (Engine.tryBlock world logger options _)) as [[] | e].
    + left. split; reflexivity.
    + right. exists e. eexists. split; [reflexivity | ].
      split; [ | reflexivity ]. reflexivity.
Qed.

(** X10: in a dry run the whole pass makes no [setTrackRating] call,
    whatever the library holds, whatever the bridge answers and however the
    pass ends. *)
Theorem dry_run_makes_no_call (tr : list Event) :
  Ratesync.dryRun options = true ->
  ratingCalls (snd (Ratesync.run world logger options tr)) = ratingCalls tr.
Proof.
  intro Hdry.
  destruct (run_shape world logger options tr) as [body [Hall [_ Hrun]]].
  destruct (passEvent_calls options body Hall) as [_ [_ Hnone]].
  destruct (announced_facts logger options) as [_ [Hannounced _]].
  rewrite Hrun.
  destruct (fst (Engine.tryBlock world logger options _)) as [[] | e];
    cbn [snd]; rewrite !ratingCalls_app, Hannounced, (Hnone Hdry); cbn;
    now rewrite !app_nil_r.
Qed.

(** X11: every [setTrackRating] call of a pass addresses the track by its
    key and passes a rating that is an integer and is not 0: the engine
    never sends "unrated" to the server, so it never clears a rating. *)
Theorem every_call_is_sound (tr : list Event) :
  exists evs,
    snd (Ratesync.run world logger options tr) = (tr ++ evs)%list /\
    Forall Trace.soundCall (ratingCalls evs).
Proof.
  destruct (run_shape world logger options tr) as [body [Hall [_ Hrun]]].
  destruct (passEvent_calls options body Hall) as [Hsound _].
  destruct (announced_facts logger options) as [_ [Hannounced _]].
  rewrite Hrun.
  destruct (fst (Engine.tryBlock world logger options _)) as [[] | e];
    cbn [snd]; rewrite <- app_assoc; eexists; (split; [reflexivity | ]);
    rewrite !ratingCalls_app, Hannounced; cbn; now rewrite app_nil_r.
Qed.

(** X12: the only pauses of a pass are those of the announcements, 2000 ms
    for a dry run and then 5000 ms for overriding; they are over before the
    first request and the first script. *)
Theorem pauses_come_first (tr : list Event) :
  exists rest,
    snd (Ratesync.run world logger options tr) =
      (tr ++ Trace.announced logger options ++ rest)%list /\
    Trace.sleeps rest = [] /\
    Trace.sleeps (Trace.announced logger options) =
      ((if Ratesync.dryRun options then [2000%Z] else []) ++
       (if Ratesync.overrideExisting options then [5000%Z] else []))%list /\
    requestsSent (Trace.announced logger options) = [] /\
    scriptsRun (Trace.announced logger options) = [].
Proof.
  destruct (run_shape world logger options tr) as [body [Hall [_ Hrun]]].
  destruct (passEvent_calls options body Hall) as [_ [Hsleeps _]].
  destruct (announced_facts logger options)
    as [_ [_ [Hrequests [Hscripts Hannounced]]]].
  rewrite Hrun.
  destruct (fst (Engine.tryBlock world logger options _)) as [[] | e];
    cbn [snd]; rewrite <- app_assoc; eexists;
    (split; [reflexivity | ]);
    (split; [ rewrite sleeps_app, Hsleeps; reflexivity | ]);
    repeat split; assumption.
Qed.

End PassProperties.

Lemma pass_ends_with_summary_or_fatal_witness :
  exists body,
    snd (Ratesync.run Examples.ratingUpdatesFail []
           (Examples.options true false) []) =
      (Trace.announced [] (Examples.options true false) ++ body ++
       [Trace.summaryEntry [] 0])%list.
Proof.
  destruct (pass_ends_with_summary_or_fatal Examples.ratingUpdatesFail []
              (Examples.options true false) []
              ltac:(vm_compute; reflexivity))
    as [body [_ [_ [[_ Hsnd] | [e [entry [Hfst _]]]]]]].
  - exists body. exact Hsnd.
  - vm_compute in Hfst. discriminate Hfst.
Defined.

Lemma dry_run_makes_no_call_witness :
  ratingCalls
    (snd (Ratesync.run Examples.ratingUpdatesFail []
            (Examples.options true true) [])) = [].
Proof.
  apply (dry_run_makes_no_call Examples.ratingUpdatesFail []
           (Examples.options true true) []).
  reflexivity.
Defined.

Section FirstRequest.

Variable world : World.
Variable logger : Pino.Logger.
Variable options : Ratesync.RatesyncOptions.

Let plexClient := Engine.plexClientOf logger options.
Let appleMusicClient := Engine.appleClientOf logger.

(** When the platform refuses the token or the base URL, [fetch] throws
    before anything is sent. *)
Lemma fetch_cannot_send (self : Plex.PlexClient) (endpoint : Endpoint)
    (url : list (string * value)) (tr : list Event) :
  Client.canSend world self = false ->
  exists e, Plex.fetch world self endpoint url tr = (Err e, tr).
Proof.
  unfold Client.canSend. intro Hsend. rewrite fetch_start.
  destruct (Client.validRequest endpoint url); [ | eauto ].
  destruct (Headers_accepts world _); [ | eauto ].
  destruct (URL_canParse world _); [discriminate | eauto].
Qed.

Lemma listAlbums_requests (self : Plex.PlexClient) (key : string)
    (tr : list Event) :
  requestsSent (snd (Plex.listAlbums world self (SectionByKey key) tr)) =
    (requestsSent tr ++
     if Client.canSend world self
     then [Client.requestFor self LIBRARY_SECTION_GET_ALL
             (Client.sectionUrl key Plex.SearchType_album)]
     else [])%list.
Proof.
  to_fetch.
  match goal with
  | |- context [Plex.fetch world self ?endpoint ?u ?t] =>
      pose proof (fetch_requests world self endpoint u t) as Hsent;
      destruct (Plex.fetch world self endpoint u t) as [[data | e] tr1]
  end;
    cbn [snd] in *;
    rewrite ?mapM_sends_nothing by apply transformAlbum_sends_nothing;
    rewrite ?requestsSent_app in *;
    cbn [requestsSent flat_map app] in *;
    rewrite ?app_nil_r in *; exact Hsent.
Qed.

Lemma tryBlock_requests (tr : list Event) :
  exists rest,
    requestsSent (snd (Engine.tryBlock world logger options tr)) =
      (requestsSent tr ++
       if Client.canSend world plexClient
       then Trace.sectionRequest logger options :: rest
       else [])%list.
Proof.
  unfold Engine.tryBlock.
  unfold bind at 1, Pino.log at 1, emit at 1.
  unfold bind at 1, Pino.log at 1, emit at 1.
  unfold bind at 1, Pino.log at 1, emit at 1.
  unfold bind at 1. fold plexClient. fold appleMusicClient.
  match goal with
  | |- context [Plex.listAlbums world plexClient _ ?t] => set (tr1 := t)
  end.
  assert (Hquiet : requestsSent tr1 = requestsSent tr).
  { unfold tr1. rewrite !requestsSent_app. cbn. now rewrite !app_nil_r. }
  pose proof (listAlbums_requests plexClient "3" tr1) as Hsent.
  rewrite Hquiet in Hsent.
  destruct (Client.canSend world plexClient) eqn:Hsend.
  - destruct (Plex.listAlbums world plexClient (SectionByKey "3") tr1)
      as [[albums | e] tr2]; cbn [snd] in *.
    + destruct (appends_forOf (Trace.passEvent options) albums _
                  (albumBody_events world logger options appleMusicClient
                     plexClient) tr2) as [evs [Hevs _]].
      exists (requestsSent evs).
      rewrite Hevs, requestsSent_app, Hsent, <- app_assoc. reflexivity.
    + exists []. exact Hsent.
  - exists [].
    assert (Hfails : exists e tr2,
      Plex.listAlbums world plexClient (SectionByKey "3") tr1 = (Err e, tr2)).
    { to_fetch.
      match goal with
      | |- context [Plex.fetch world plexClient ?endpoint ?u ?t] =>
          destruct (fetch_cannot_send plexClient endpoint u t Hsend)
            as [e Hfetch]; rewrite Hfetch
      end. eauto. }
    destruct Hfails as [e [tr2 Hfails]]. rewrite Hfails in Hsent |- *.
    exact Hsent.
Qed.

(** X13: the pass asks for the albums of the library section whose key is
    "3", whatever the options: when the platform accepts the token and the
    base URL this is the first request it sends, and otherwise it sends
    none. *)
Theorem pass_lists_section_3_first (tr : list Event) :
  exists rest,
    requestsSent (snd (Ratesync.run world logger options tr)) =
      (requestsSent tr ++
       if Client.canSend world (Engine.plexClientOf logger options)
       then Trace.sectionRequest logger options :: rest
       else [])%list /\
    lookup "key" (requestVariables (Trace.sectionRequest logger options))
      = Some (JStr "3") /\
    lookup "type" (requestVariables (Trace.sectionRequest logger options))
      = Some (JNum 9).
Proof.
  destruct (run_shape world logger options tr) as [body [_ [Hbody Hrun]]].
  destruct (tryBlock_requests (tr ++ Trace.announced logger options)%list)
    as [rest Hrest].
  destruct (announced_facts logger options) as [_ [_ [Hannounced _]]].
  exists rest. split; [ | split; reflexivity ].
  rewrite Hbody in Hrest.
  rewrite (requestsSent_app tr), Hannounced, app_nil_r in Hrest.
  fold plexClient.
  rewrite Hrun.
  destruct (fst (Engine.tryBlock world logger options _)) as [[] | e];
    cbn [snd]; rewrite app_assoc, requestsSent_app, Hrest; cbn;
    now rewrite app_nil_r.
Qed.

End FirstRequest.

Section IterationFacts.

Variable world : World.
Variable logger : Pino.Logger.
Variable options : Ratesync.RatesyncOptions.
Variable appleMusicClient : AppleMusic.AppleMusicClient.
Variable album : AlbumEntry.
Variable track : TrackEntry.

(** X14: an iteration of the track loop throws in one case only: overriding
    is off, the remote rating is negative, and the candidate rating is
    neither 0 nor equal to it.  What it throws then is
    [Error("Unknown error")]; a failure of the bridge never makes it
    throw. *)
Theorem trackBody_throws_iff (tr : list Event) (e : Exn) :
  let our := rating track in
  let their := Engine.theirRatingAt world logger album track tr in
  fst (Ratesync.trackBody world logger options appleMusicClient
         album track tr) = Err e
  <->
  (e = JsError "Unknown error" /\
   Ratesync.overrideExisting options = false /\
   (our < 0)%Q /\ ~ (their == 0)%Q /\ ~ (their == our)%Q).
Proof.
  cbv zeta. rewrite trackBody_decide. cbv zeta. cbn [fst].
  set (their := Engine.theirRatingAt world logger album track tr).
  chain_cases (Ratesync.overrideExisting options) (rating track) their;
    cbn [Engine.branchResult];
    (split;
     [ intros [= <-] || (intro Hthrown; discriminate Hthrown)
     | intros [-> [Hoff [Hneg [Hzero Hsame]]]] ]);
    try reflexivity; try discriminate; try contradiction;
    try (repeat split; try reflexivity; try assumption; lra);
    try (exfalso; lra).
Qed.

End IterationFacts.

Lemma trackBody_throws_iff_witness :
  fst (Ratesync.trackBody (Examples.bridgePrints "80") []
         (Examples.options false false) Examples.client
         Examples.abbeyRoad (Examples.trackRated (-1)) [])
    = Err (JsError "Unknown error").
Proof.
  apply (proj2 (trackBody_throws_iff (Examples.bridgePrints "80") []
                  (Examples.options false false) Examples.client
                  Examples.abbeyRoad (Examples.trackRated (-1)) []
                  (JsError "Unknown error"))).
  repeat split; intro H; vm_compute in H; discriminate H.
Defined.

(** X15: the album name is not part of the search: two requests that
    differ in the album name only run the same script and get the same
    answer. *)
Theorem reader_ignores_album
    (world : World) (self : AppleMusic.AppleMusicClient)
    (albumA albumB artist track : string) (tr : list Event) :
  AppleMusic.script (AppleMusic.mkFilters albumA artist track) =
    AppleMusic.script (AppleMusic.mkFilters albumB artist track) /\
  AppleMusic.getAppleMusicRating world self
    (AppleMusic.mkFilters albumA artist track) tr =
  AppleMusic.getAppleMusicRating world self
    (AppleMusic.mkFilters albumB artist track) tr.
Proof.
  assert (Hscript :
    AppleMusic.script (AppleMusic.mkFilters albumA artist track) =
    AppleMusic.script (AppleMusic.mkFilters albumB artist track))
    by reflexivity.
  split; [exact Hscript | ].
  rewrite !getAppleMusicRating_run. cbv zeta. now rewrite Hscript.
Qed.

Lemma listAlbums_failure_aborts_witness :
  Ratesync.run (Examples.serverReplies Examples.serverError) []
    (Examples.options false false) [] =
    (Err PlexFetchError,
     (snd (Plex.listAlbums (Examples.serverReplies Examples.serverError)
             (Engine.plexClientOf [] (Examples.options false false))
             (SectionByKey "3")
             [ Engine.entry LTrace [] [] "initialized Apple Music client";
               Engine.entry LTrace [] [] "initialized Plex API client";
               Engine.entry LDebug [] [] "loading albums list..." ]) ++
      [Engine.fatalEntry [] PlexFetchError])%list).
Proof.
  apply (listAlbums_failure_aborts
           (Examples.serverReplies Examples.serverError) []
           (Examples.options false false) []).
  reflexivity.
Defined.

Section UntitledAlbums.

Variable world : World.
Variable logger : Pino.Logger.
Variable options : Ratesync.RatesyncOptions.

Let plexClient := Engine.plexClientOf logger options.
Let appleMusicClient := Engine.appleClientOf logger.

(** Albums without a title are passed over one by one, each with a
    warning, and the loop ends normally. *)
Lemma forOf_untitled (albums : list AlbumEntry) :
  (forall album, In album albums -> albumEntryName album = "") ->
  forall tr,
    forOf albums
      (Ratesync.albumBody world logger options appleMusicClient plexClient) tr
    = (Ok tt, (tr ++ map (Trace.untitledWarning logger) albums)%list).
Proof.
  induction albums as [ | album rest IH]; intros Hnames tr.
  - cbn. now rewrite app_nil_r.
  - cbn [forOf map]. unfold bind at 1.
    unfold Ratesync.albumBody at 1.
    rewrite (Hnames album (or_introl eq_refl)). cbn [String.eqb].
    unfold Pino.log, emit.
    rewrite IH by (intros a Ha; apply Hnames; now right).
    unfold Trace.untitledWarning, Engine.entry.
    now rewrite <- app_assoc.
Qed.

Lemma listAlbums_value (key : string) (response : Response) (payload : value)
    (tr : list Event) :
  Client.canSend world plexClient = true ->
  http world
    (tr ++ [ ELog (mkLog LDebug
                     (Plex.plexLogger plexClient ++
                      [("params",
                        JObj [("section", sectionRefValue (SectionByKey key))])])
                     "fetching albums");
             ELog (mkLog LDebug
                     (Plex.plexLogger plexClient ++ [("key", JStr key)])
                     "resolved section key") ])%list
    (Client.requestFor plexClient LIBRARY_SECTION_GET_ALL
       (Client.sectionUrl key Plex.SearchType_album)) = Ok response ->
  ok response = true ->
  Client.contentLength response <> Some 0%Z ->
  json response = Some payload ->
  Value_Check
    (Plex.responseSchema (Plex.EndpointConfig LIBRARY_SECTION_GET_ALL))
    payload = true ->
  Client.allHaveParent payload ->
  fst (Plex.listAlbums world plexClient (SectionByKey key) tr) =
    Ok (map Client.albumOf (Plex.metadataOf payload)).
Proof.
  intros Hsend Hhttp Hok Hlength Hjson Hshape Hparents. to_fetch.
  rewrite (fetch_body world plexClient LIBRARY_SECTION_GET_ALL
             (Client.sectionUrl key Plex.SearchType_album) _ response payload);
    auto.
  - rewrite Hshape. apply mapM_total.
    intros entry Hin tr'. apply transformAlbum_value. now apply Hparents.
  - rewrite <- app_assoc. exact Hhttp.
Qed.

(** X17: when every album of the section comes without a title, the pass
    skips them all: it warns once per album, in order, lists the tracks of
    none (the section listing is its only request), logs the summary and
    returns normally. *)
Theorem untitled_albums_are_skipped
    (response : Response) (payload : value) (tr : list Event) :
  Client.canSend world (Engine.plexClientOf logger options) = true ->
  Client.answers world (Trace.sectionRequest logger options) response ->
  ok response = true ->
  Client.contentLength response <> Some 0%Z ->
  json response = Some payload ->
  Value_Check
    (Plex.responseSchema (Plex.EndpointConfig LIBRARY_SECTION_GET_ALL))
    payload = true ->
  Client.allHaveParent payload ->
  Client.allUntitled payload ->
  let pass := Ratesync.run world logger options tr in
  fst pass = Ok tt /\
  requestsSent (snd pass) =
    (requestsSent tr ++ [Trace.sectionRequest logger options])%list /\
  exists before duration,
    snd pass =
      (before ++
       map (Trace.untitledWarning logger)
         (map Client.albumOf (Plex.metadataOf payload)) ++
       [Trace.summaryEntry logger duration])%list.
Proof.
  intros Hsend Hanswers Hok Hlength Hjson Hshape Hparents Huntitled.
  cbv zeta.
  destruct (run_shape world logger options tr) as [body [_ [Hbody Hrun]]].
  set (started := (tr ++ Trace.announced logger options)%list) in *.
  assert (Hblock : exists tr2,
    Engine.tryBlock world logger options started =
      (Ok tt,
       (tr2 ++ map (Trace.untitledWarning logger)
                 (map Client.albumOf (Plex.metadataOf payload)))%list) /\
    requestsSent tr2 =
      (requestsSent started ++ [Trace.sectionRequest logger options])%list).
  { unfold Engine.tryBlock.
    unfold bind at 1, Pino.log at 1, emit at 1.
    unfold bind at 1, Pino.log at 1, emit at 1.
    unfold bind at 1, Pino.log at 1, emit at 1.
    unfold bind at 1. fold plexClient. fold appleMusicClient.
    match goal with
    | |- context [Plex.listAlbums world plexClient _ ?t] => set (tr1 := t)
    end.
    pose proof (listAlbums_value "3" response payload tr1 Hsend
                  (Hanswers _) Hok Hlength Hjson Hshape Hparents) as Hvalue.
    pose proof (listAlbums_requests world plexClient "3" tr1) as Hsent.
    fold plexClient in Hsend. rewrite Hsend in Hsent.
    destruct (Plex.listAlbums world plexClient (SectionByKey "3") tr1)
      as [[albums | e] tr2]; cbn [fst snd] in *; [ | discriminate ].
    injection Hvalue as ->.
    exists tr2. split.
    - apply forOf_untitled. intros album [entry [<- Hin]]%in_map_iff.
      now apply Huntitled.
    - rewrite Hsent. unfold tr1. rewrite !requestsSent_app. cbn.
      now rewrite !app_nil_r. }
  destruct Hblock as [tr2 [Hblock Hsent]].
  rewrite Hblock in Hbody, Hrun. cbn [fst snd] in Hbody, Hrun.
  destruct (announced_facts logger options) as [_ [_ [Hannounced _]]].
  rewrite Hrun. cbn [fst snd]. split; [reflexivity | split].
  - rewrite app_assoc, <- Hbody, !requestsSent_app, Hsent.
    unfold started. rewrite requestsSent_app, Hannounced.
    cbn. rewrite ?app_nil_r.
    assert (Hwarnings : forall albums,
      requestsSent (map (Trace.untitledWarning logger) albums) = []).
    { induction albums; [reflexivity | assumption]. }
    now rewrite Hwarnings, app_nil_r.
  - exists tr2. eexists. rewrite app_assoc, <- Hbody, <- app_assoc.
    reflexivity.
Qed.

End UntitledAlbums.

Lemma untitled_albums_are_skipped_witness :
  fst (Ratesync.run
         (Examples.serverReplies (Examples.jsonResponse Examples.untitledAlbums))
         [] (Examples.options false false) []) = Ok tt /\
  requestsSent
    (snd (Ratesync.run
            (Examples.serverReplies
               (Examples.jsonResponse Examples.untitledAlbums))
            [] (Examples.options false false) [])) =
    [Trace.sectionRequest [] (Examples.options false false)].
Proof.
  assert (Hlength : Client.contentLength
                      (Examples.jsonResponse Examples.untitledAlbums)
                    <> Some 0%Z) by discriminate.
  assert (Hparents : Client.allHaveParent Examples.untitledAlbums).
  { intros entry [<- | [<- | []]]; discriminate. }
  assert (Huntitled : Client.allUntitled Examples.untitledAlbums).
  { intros entry [<- | [<- | []]]; reflexivity. }
  destruct (untitled_albums_are_skipped
              (Examples.serverReplies
                 (Examples.jsonResponse Examples.untitledAlbums))
              [] (Examples.options false false)
              (Examples.jsonResponse Examples.untitledAlbums)
              Examples.untitledAlbums []
              eq_refl (fun _ => eq_refl) eq_refl Hlength eq_refl eq_refl
              Hparents Huntitled) as [Hresult [Hrequests _]].
  split; assumption.
Defined.
